(** * The hyper-parameter tuning notebook of scikit-optimize

    The repository ships one program, [examples/hyperparameter-optimisation.ipynb].
    This development embeds it twice:

    - [Syntax] and [Program] hold the code cells as an abstract syntax tree,
      statement for statement, so that properties of the program text (which
      functions are imported and called, with which keywords) are computed
      from it;
    - [Notebook] holds the functions the cells define ([objective], [space],
      the convergence curves) as Rocq functions over Python values.

    The optimisers the notebook calls ([gp_minimize], [forest_minimize],
    [dummy_minimize]) are not part of the sources at hand; module [Smbo]
    models them from the specification.

    Python floats are modelled by exact rationals ([Q]): rounding, NaN and
    infinities are outside the model. *)

From Stdlib Require Import ZArith QArith Qround Qminmax Qabs Lqa.
From stdpp Require Import base option list strings gmap.

Local Open Scope string_scope.
Local Open Scope list_scope.

(** ** Python values *)

Inductive value : Type :=
| VInt (z : Z)
| VFloat (q : Q)
| VStr (s : string).

#[global] Instance value_inhabited : Inhabited value := populate (VInt 0).

(** Numeric reading of a value: Python compares an [int] with a [float] by
    value; a string is not a number. *)
Definition to_Q (v : value) : option Q :=
  match v with
  | VInt z => Some (inject_Z z)
  | VFloat q => Some q
  | VStr _ => None
  end.

(** Rational comparison as a boolean. *)
Definition Qltb (x y : Q) : bool :=
  match (x ?= y)%Q with Lt => true | _ => false end.

Definition Qleb (x y : Q) : bool := negb (Qltb y x).


(** ** Syntax of the notebook's code cells *)

Module Syntax.

#[local] Set Warnings "-register-all".

Inductive expr : Type :=
| Name (id : string)
| Const (v : value)
| Attr (e : expr) (field : string)                        (* e.field *)
| Call (f : expr) (args : list expr) (kw : list (string * expr))
| Tuple (es : list expr)
| ListE (es : list expr)
| Subscript (e idx : expr)                                (* e[idx] *)
| SliceTo (e hi : expr)                                   (* e[:hi] *)
| BinOp (op : string) (a b : expr)
| Neg (e : expr)
| ListComp (body : expr) (var : string) (iter : expr)     (* [body for var in iter] *)
| Commented (e : expr) (text : string).                   (* e   # text *)

Inductive stmt : Type :=
| Magic (line : string)
| ImportAs (module : string) (alias : string)             (* import module as alias *)
| FromImport (module : string) (name : string)            (* from module import name *)
| Assign (targets : list expr) (e : expr)
| ExprStmt (e : expr)
| Def (name : string) (params : list string) (body : list stmt)
| Return (e : expr).

(** The dotted path of a callee: [np.mean] is [["np"; "mean"]]. *)
Fixpoint dotted (e : expr) : option (list string) :=
  match e with
  | Name id => Some [id]
  | Attr e f => p ← dotted e; Some (p ++ [f])
  | _ => None
  end.

(** A call site: the callee's dotted path, the number of positional
    arguments and the keywords in source order. *)
Record site : Type := Site {
  callee : list string;
  positional : list expr;
  keywords : list (string * expr)
}.

(** All call sites of an expression, outermost first. *)
Fixpoint calls (e : expr) : list site :=
  match e with
  | Name _ | Const _ => []
  | Attr e _ => calls e
  | Call f args kw =>
      Site (default [] (dotted f)) args kw
        :: calls f
        ++ flat_map calls args
        ++ flat_map (fun p => calls (snd p)) kw
  | Tuple es | ListE es => flat_map calls es
  | Subscript e i => calls e ++ calls i
  | SliceTo e h => calls e ++ calls h
  | BinOp _ a b => calls a ++ calls b
  | Neg e => calls e
  | ListComp b _ it => calls it ++ calls b
  | Commented e _ => calls e
  end.

Fixpoint stmt_calls (s : stmt) : list site :=
  match s with
  | Magic _ | ImportAs _ _ | FromImport _ _ => []
  | Assign ts e => flat_map calls ts ++ calls e
  | ExprStmt e | Return e => calls e
  | Def _ _ body => flat_map stmt_calls body
  end.

(** Call sites that run when the statement itself runs: the body of a
    [def] does not. *)
Definition toplevel_calls (s : stmt) : list site :=
  match s with
  | Def _ _ _ => []
  | _ => stmt_calls s
  end.

Definition defined (s : stmt) : list string :=
  match s with
  | Def name _ _ => [name]
  | _ => []
  end.

(** Names bound by import statements, with the module they come from. *)
Definition imported (s : stmt) : list (string * string) :=
  match s with
  | ImportAs m a => [(a, m)]
  | FromImport m n => [(n, m)]
  | _ => []
  end.

End Syntax.

(** ** The code cells, in source order *)

Module Program.
Import Syntax.

Definition int (z : Z) : expr := Const (VInt z).
Definition str (s : string) : expr := Const (VStr s).

(** Cell 1. *)
Definition cell_setup : list stmt :=
  [ Magic "%matplotlib inline";
    ImportAs "numpy" "np";
    ImportAs "matplotlib.pyplot" "plt";
    Assign [Subscript (Attr (Name "plt") "rcParams") (str "figure.figsize")]
           (Tuple [int 10; int 6]) ].

(** Cell 2: the data, the estimator and [objective]. *)
Definition objective_def : stmt :=
  Def "objective" ["params"]
    [ Assign [Tuple [Name "max_depth"; Name "learning_rate"; Name "max_features";
                     Name "min_samples_split"; Name "min_samples_leaf"]]
             (Name "params");
      ExprStmt (Call (Attr (Name "reg") "set_params") []
                  [("max_depth", Name "max_depth");
                   ("learning_rate", Name "learning_rate");
                   ("max_features", Name "max_features");
                   ("min_samples_split", Name "min_samples_split");
                   ("min_samples_leaf", Name "min_samples_leaf")]);
      Return (Neg (Call (Attr (Name "np") "mean")
                     [Call (Name "cross_val_score") [Name "reg"; Name "X"; Name "y"]
                        [("cv", int 5); ("n_jobs", Neg (int 1));
                         ("scoring", str "mean_absolute_error")]]
                     [])) ].

Definition cell_objective : list stmt :=
  [ FromImport "sklearn.datasets" "load_boston";
    FromImport "sklearn.ensemble" "GradientBoostingRegressor";
    FromImport "sklearn.model_selection" "cross_val_score";
    Assign [Name "boston"] (Call (Name "load_boston") [] []);
    Assign [Tuple [Name "X"; Name "y"]]
           (Tuple [Attr (Name "boston") "data"; Attr (Name "boston") "target"]);
    Assign [Name "reg"]
           (Call (Name "GradientBoostingRegressor") []
              [("n_estimators", int 50); ("random_state", int 0)]);
    objective_def ].

(** Cell 3: the bounds, each line with its trailing comment. *)
Definition space_expr : expr :=
  ListE
    [ Commented (Tuple [int 1; int 5]) "max_depth";
      Commented (Tuple [BinOp "**" (int 10) (Neg (int 5));
                        BinOp "**" (int 10) (Neg (int 1));
                        str "log-uniform"]) "learning_rate";
      Commented (Tuple [int 1; Subscript (Attr (Name "X") "shape") (int 1)]) "max_features";
      Commented (Tuple [int 2; int 30]) "min_samples_split";
      Commented (Tuple [int 1; int 30]) "min_samples_leaf" ].

Definition cell_space : list stmt := [ Assign [Name "space"] space_expr ].

(** Cells 4, 7 and 10: one optimiser each. *)
Definition minimize_cell (minimizer result : string) : list stmt :=
  [ FromImport "skopt" minimizer;
    Assign [Name result]
           (Call (Name minimizer) [Name "objective"; Name "space"]
              [("maxiter", int 50); ("random_state", int 0)]) ].

(** The call site of such a cell. *)
Definition minimize_site (minimizer : string) : site :=
  Site [minimizer] [Name "objective"; Name "space"]
       [("maxiter", int 50); ("random_state", int 0)].

(** Cells 5, 8 and 11: the best score. *)
Definition score_cell (result : string) : list stmt :=
  [ ExprStmt (BinOp "%" (str "Best score=%.4f") (Attr (Name result) "fun")) ].

(** Cells 6, 9 and 12: the best parameters. *)
Definition params_cell (result template : string) : list stmt :=
  let x i := Subscript (Attr (Name result) "x") (int i) in
  [ ExprStmt (Call (Name "print")
                [BinOp "%" (str template) (Tuple [x 0; x 1; x 2; x 3; x 4])%Z] []) ].

(** Cell 13: the convergence curves. *)
Definition curve (result : string) : expr :=
  ListComp
    (Neg (Call (Attr (Name "np") "min")
            [SliceTo (Attr (Name result) "func_vals") (BinOp "+" (Name "i") (int 1))] []))
    "i" (Call (Name "range") [Name "n_points"] []).

Definition plot (curve_name label : string) : stmt :=
  ExprStmt (Call (Attr (Name "plt") "plot")
              [Call (Name "range") [Name "n_points"] []; Name curve_name]
              [("label", str label)]).

Definition cell_plot : list stmt :=
  [ Assign [Name "n_points"] (int 50);
    Assign [Name "best_gp"] (curve "res_gp");
    plot "best_gp" "GP-based search";
    Assign [Name "best_forest"] (curve "res_forest");
    plot "best_forest" "Forest-based search";
    Assign [Name "best_dummy"] (curve "res_dummy");
    plot "best_dummy" "Random search";
    ExprStmt (Call (Attr (Name "plt") "legend") [] [("loc", str "best")]);
    ExprStmt (Call (Attr (Name "plt") "show") [] []) ].

Definition template (digits : string) : string :=
  "Best parameters:
- max_depth=%d
- learning_rate=%." +:+ digits +:+ "f
- max_features=%d
- min_samples_split=%d
- min_samples_leaf=%d".
Definition template6 : string := template "6".
Definition template4 : string := template "4".

Definition notebook : list stmt :=
  cell_setup ++ cell_objective ++ cell_space
    ++ minimize_cell "gp_minimize" "res_gp"
    ++ score_cell "res_gp" ++ params_cell "res_gp" template6
    ++ minimize_cell "forest_minimize" "res_forest"
    ++ score_cell "res_forest" ++ params_cell "res_forest" template6
    ++ minimize_cell "dummy_minimize" "res_dummy"
    ++ score_cell "res_dummy" ++ params_cell "res_dummy" template4
    ++ cell_plot.

(** *** What the program text contains *)

Definition imports : list (string * string) := flat_map imported notebook.

(** The module a name was imported from, if it was. *)
Definition module_of (name : string) : option string :=
  (list_to_map imports : gmap string string) !! name.

Definition names_from (module : string) : list string :=
  map fst (filter (fun p => p.2 = module) imports).

Definition all_calls : list site := flat_map stmt_calls notebook.
Definition run_calls : list site := flat_map toplevel_calls notebook.

(** The module a call site resolves to through the imports; [None] for a
    builtin or a method of a local object. *)
Definition site_module (c : site) : option string :=
  h ← head (callee c); module_of h.

Definition calls_into (module : string) (cs : list site) : list site :=
  filter (fun c => site_module c = Some module) cs.

(** The optimiser invocations: the call sites that resolve to [skopt]. *)
Definition optimizer_calls : list site := calls_into "skopt" all_calls.

(** The comments of a commented list literal, in order. *)
Definition comments (e : expr) : list string :=
  match e with
  | ListE es => flat_map (fun e => match e with Commented _ c => [c] | _ => [] end) es
  | _ => []
  end.

(** The names a [def] unpacks its parameter into: the targets of a tuple
    assignment from [param]. *)
Definition unpacked (param : string) (s : stmt) : list string :=
  match s with
  | Def _ _ (Assign [Tuple ts] (Name src) :: _) =>
      if decide (src = param)
      then flat_map (fun t => match t with Name x => [x] | _ => [] end) ts
      else []
  | _ => []
  end.

(** The names [objective] unpacks its argument into. *)
Definition objective_params : list string := unpacked "params" objective_def.

(** The distinct callees among call sites. *)
Definition callees (cs : list site) : list (list string) :=
  remove_dups (map callee cs).

Definition keyword_names (c : site) : list string := map fst (keywords c).

(** The keyword argument [k] of a call site, when it is a constant. *)
Definition keyword (k : string) (c : site) : option value :=
  e ← (list_to_map (keywords c) : gmap string expr) !! k;
  match e with Const v => Some v | _ => None end.

(** A call site passes the keyword [k]. *)
Definition supplies (k : string) (c : site) : Prop := is_Some (keyword k c).

End Program.

(** ** The functions the notebook defines *)

Module Notebook.

(** *** numpy *)

Definition np_sum (a : list Q) : Q := foldl Qplus 0%Q a.

(** [np.mean]: the sum over the number of elements (on an empty array numpy
    answers NaN with a warning; here the quotient by zero is [0]). *)
Definition np_mean (a : list Q) : Q := (np_sum a / inject_Z (Z.of_nat (length a)))%Q.

(** [np.min]: the smallest element; raises [ValueError] on an empty array. *)
Definition np_min (a : list Q) : option Q :=
  match a with
  | [] => None
  | x :: t => Some (foldl Qmin x t)
  end.

(** *** The estimator

    An estimator object is the finite map of the parameters set on it;
    a parameter never set keeps scikit-learn's default and is absent. *)

Definition GradientBoostingRegressor (kw : list (string * value)) : gmap string value :=
  list_to_map kw.

(** [est.set_params] with keyword arguments [kw] assigns every keyword in
    turn. *)
Definition set_params (kw : list (string * value)) (est : gmap string value)
  : gmap string value :=
  foldl (fun m kv => <[kv.1 := kv.2]> m) est kw.

(** [reg = GradientBoostingRegressor(n_estimators=50, random_state=0)] *)
Definition reg : gmap string value :=
  GradientBoostingRegressor [("n_estimators", VInt 50); ("random_state", VInt 0)].

Section Objective.

(** scikit-learn's [cross_val_score(est, X, y, cv=, n_jobs=, scoring=)]
    on the Boston data [X], [y]: one score per fold. It is an external
    collaborator, taken as given. *)
Variable cross_val_score : gmap string value -> Z -> Z -> string -> list Q.

(** [objective(params)]. The global [reg] is mutated by [set_params], so
    the estimator is threaded through: the result is the estimator after
    the call and the returned number. Unpacking anything but five values
    raises [ValueError] ([None]). *)
Definition objective (reg : gmap string value) (params : list value)
  : option (gmap string value * Q) :=
  match params with
  | [max_depth; learning_rate; max_features; min_samples_split; min_samples_leaf] =>
      let reg := set_params [("max_depth", max_depth);
                             ("learning_rate", learning_rate);
                             ("max_features", max_features);
                             ("min_samples_split", min_samples_split);
                             ("min_samples_leaf", min_samples_leaf)] reg in
      Some (reg, (- np_mean (cross_val_score reg 5 (-1) "mean_absolute_error"))%Q)
  | _ => None
  end.

(** The mean score [objective] negates, for an estimator. *)
Definition mean_score (est : gmap string value) : Q :=
  np_mean (cross_val_score est 5 (-1) "mean_absolute_error").

(** The objective as the optimiser sees it, started on the notebook's
    [reg]: a point in, a number (or an exception) out. *)
Definition objective_value (params : list value) : option Q :=
  snd <$> objective reg params.

(** Successive calls of [objective], each on the estimator the previous
    call left behind; a call that fails to unpack its point leaves the
    estimator as it was. *)
Fixpoint call_sequence (reg : gmap string value) (points : list (list value))
  : list (option Q) :=
  match points with
  | [] => []
  | p :: points =>
      match objective reg p with
      | Some (reg', r) => Some r :: call_sequence reg' points
      | None => None :: call_sequence reg points
      end
  end.

End Objective.

(** *** The search space

    A Python tuple is the list of its components. [n_features] is
    [X.shape[1]], the number of columns of the Boston data. *)
Definition space (n_features : Z) : list (list value) :=
  [ [VInt 1; VInt 5];
    [VFloat (1 # 100000); VFloat (1 # 10); VStr "log-uniform"];
    [VInt 1; VInt n_features];
    [VInt 2; VInt 30];
    [VInt 1; VInt 30] ].

(** The trailing comments of the five lines of [space]. *)
Definition space_comments : list string := Program.comments Program.space_expr.

Definition low (t : list value) : option value := t !! 0%nat.
Definition high (t : list value) : option value := t !! 1%nat.


(** **** Evaluating the literal of cell 3

    [space] above is what the expression [Program.space_expr] evaluates
    to; the evaluator covers the constructs that occur in it. *)

(** [a ** b] on integers: an integer for [b >= 0], a float otherwise. *)
Definition pow (a b : value) : option value :=
  match a, b with
  | VInt x, VInt y =>
      if (0 <=? y)%Z then Some (VInt (x ^ y)) else Some (VFloat (inject_Z x ^ y)%Q)
  | _, _ => None
  end.

Definition neg (a : value) : option value :=
  match a with
  | VInt x => Some (VInt (- x))
  | VFloat x => Some (VFloat (- x)%Q)
  | VStr _ => None
  end.

Import Syntax.

Fixpoint eval (n_features : Z) (e : expr) : option value :=
  match e with
  | Const v => Some v
  | Neg e => eval n_features e ≫= neg
  | BinOp op a b =>
      if decide (op = "**")
      then x ← eval n_features a; y ← eval n_features b; pow x y
      else None
  | Subscript (Attr (Name x) f) (Const (VInt 1)) =>
      if decide (x = "X" ∧ f = "shape") then Some (VInt n_features) else None
  | Commented e _ => eval n_features e
  | _ => None
  end.

Definition eval_tuple (n_features : Z) (e : expr) : option (list value) :=
  match e with
  | Commented (Tuple es) _ | Tuple es => mapM (eval n_features) es
  | _ => None
  end.

Definition eval_space (n_features : Z) (e : expr) : option (list (list value)) :=
  match e with
  | ListE es => mapM (eval_tuple n_features) es
  | _ => None
  end.

(** *** The convergence curves of cell 13 *)

Definition n_points : nat := 50.

(** [[-np.min(func_vals[:i+1]) for i in range(n_points)]] *)
Definition best_curve (func_vals : list Q) : option (list Q) :=
  mapM (fun i => Qopp <$> np_min (take (i + 1) func_vals)) (seq 0 n_points).

Section Calls.

Variable cross_val_score : gmap string value -> Z -> Z -> string -> list Q.

(** The global [reg] after successive calls of [objective]: each call
    that unpacks its point mutates the estimator, a call that fails to
    unpack it leaves the estimator as it was. *)
Fixpoint reg_after (reg : gmap string value) (points : list (list value))
  : gmap string value :=
  match points with
  | [] => reg
  | p :: points =>
      match objective cross_val_score reg p with
      | Some (reg', _) => reg_after reg' points
      | None => reg_after reg points
      end
  end.

End Calls.

End Notebook.

(** ** The optimisation core behind the three minimisers

    The notebook imports [gp_minimize], [forest_minimize] and
    [dummy_minimize] from [skopt]; their code is not among the sources. The
    definitions of this module follow the specification's design of that
    core: search space (4.1), sample generator (4.2), driver (4.5), result
    record (3), error taxonomy (7). *)

Module Smbo.

(** *** Errors *)

Inductive error : Type :=
| InvalidSpaceError
| InvalidConfigurationError.

Inductive result (A : Type) : Type :=
| Ok (a : A)
| Err (e : error).
Arguments Ok {A} a.
Arguments Err {A} e.

Definition bind {A B} (r : result A) (k : A -> result B) : result B :=
  match r with
  | Ok a => k a
  | Err e => Err e
  end.

Notation "x <-! r ; k" := (bind r (fun x => k))
  (at level 20, r at level 100, k at level 200, right associativity,
   format "x  <-!  r ;  '/' k").

Fixpoint traverse {A B} (f : A -> result B) (l : list A) : result (list B) :=
  match l with
  | [] => Ok []
  | a :: l => b <-! f a; bs <-! traverse f l; Ok (b :: bs)
  end.

(** *** Data model *)

(** Modelled from the spec: the Dimension of section 3, whose constructor
    is in the missing [skopt] package: Continuous(low, high, log-scale),
    Integer(low, high), Categorical(set of labels). *)
Inductive Dimension : Type :=
| Continuous (low high : Q) (log_scale : bool)
| Integer (low high : Z)
| Categorical (labels : list string).

(** Modelled from the spec: the invariant of a Dimension (section 3):
    [low < high] for numeric kinds, a non-empty label set without
    duplicates for a categorical one. The package's own check is missing. *)
Definition well_formed (d : Dimension) : bool :=
  match d with
  | Continuous low high _ => Qltb low high
  | Integer low high => (low <? high)%Z
  | Categorical labels => negb (bool_decide (labels = [])) && bool_decide (NoDup labels)
  end.


Definition label_of (v : value) : option string :=
  match v with VStr s => Some s | _ => None end.

(** Modelled from the spec: how caller-supplied bounds become a Dimension
    (the SearchSpace is "created once per optimization run from
    caller-supplied bounds"); the package's reading of a tuple is missing.
    A tuple of labels is a categorical set, stored de-duplicated; two
    integers bound an integer dimension; two numbers, with an optional
    prior name, a continuous one, log-scaled for ["log-uniform"]. *)
Definition dimension_of (t : list value) : result Dimension :=
  match mapM label_of t with
  | Some labels => Ok (Categorical (remove_dups labels))
  | None =>
      match t with
      | [VInt low; VInt high] => Ok (Integer low high)
      | [low; high] =>
          match to_Q low, to_Q high with
          | Some l, Some h => Ok (Continuous l h false)
          | _, _ => Err InvalidSpaceError
          end
      | [low; high; VStr prior] =>
          match to_Q low, to_Q high with
          | Some l, Some h =>
              if decide (prior = "log-uniform") then Ok (Continuous l h true)
              else if decide (prior = "uniform") then Ok (Continuous l h false)
              else Err InvalidSpaceError
          | _, _ => Err InvalidSpaceError
          end
      | _ => Err InvalidSpaceError
      end
  end.

(** Modelled from the spec: construction fails with [InvalidSpaceError]
    on a malformed Dimension (empty categorical set, bounds not in order)
    and on an empty space (sections 4.1 and 7). *)
Definition make_dimension (t : list value) : result Dimension :=
  d <-! dimension_of t;
  if well_formed d then Ok d else Err InvalidSpaceError.

(** Modelled from the spec: the SearchSpace of the missing package, built
    from the caller's bounds; an empty space is an [InvalidSpaceError]
    (section 7). *)
Definition make_space (bounds : list (list value)) : result (list Dimension) :=
  match bounds with
  | [] => Err InvalidSpaceError
  | _ => traverse make_dimension bounds
  end.

(** Modelled from the spec: a value valid within its Dimension's domain
    (the Point of section 3), with the native type of that dimension; the
    package's bounds check is missing. *)
Definition in_dimension (d : Dimension) (v : value) : bool :=
  match d, v with
  | Continuous low high _, VFloat x => Qleb low x && Qleb x high
  | Integer low high, VInt z => (low <=? z)%Z && (z <=? high)%Z
  | Categorical labels, VStr s => bool_decide (s ∈ labels)
  | _, _ => false
  end.

(** Modelled from the spec: a Point of the space (section 3), one valid
    value per Dimension, in order; the package's check is missing. *)
Fixpoint valid_point (sp : list Dimension) (p : list value) : bool :=
  match sp, p with
  | [], [] => true
  | d :: sp, v :: p => in_dimension d v && valid_point sp p
  | _, _ => false
  end.

(** *** Encoding (section 4.1)

    [encode] and [decode] of the missing package map a Point to a vector
    of reals and back. The spec leaves the categorical encoding open
    between ordinal and one-hot; both are modelled, selected by
    [categorical_encoding]. A numeric coordinate is its own code; an
    encoded integer is decoded by rounding to the nearest integer, an
    ordinal code by rounding and lookup, a one-hot block by the position of
    its first maximum. *)

Inductive categorical_encoding : Type := Ordinal | OneHot.

Fixpoint index_of (s : string) (labels : list string) : option nat :=
  match labels with
  | [] => None
  | l :: labels => if decide (l = s) then Some O else S <$> index_of s labels
  end.

(** Entry [j] of the one-hot block of position [i]. *)
Definition hot (i j : nat) : Q := if decide (j = i) then 1%Q else 0%Q.

Definition one_hot (n i : nat) : list Q := map (hot i) (seq 0 n).

(** Position of the first maximum of [l], scanning from position [i] with
    the best so far [best] at [best_i]. *)
Fixpoint argmax_from (best_i : nat) (best : Q) (i : nat) (l : list Q) : nat :=
  match l with
  | [] => best_i
  | x :: l =>
      if Qltb best x then argmax_from i x (S i) l
      else argmax_from best_i best (S i) l
  end.

Definition argmax (l : list Q) : option nat :=
  match l with
  | [] => None
  | x :: l => Some (argmax_from 0 x 1 l)
  end.

Definition round (x : Q) : Z := Qfloor (x + (1 # 2)).

(** Number of reals that encode one coordinate. *)
Definition width (enc : categorical_encoding) (d : Dimension) : nat :=
  match d, enc with
  | Categorical labels, OneHot => length labels
  | _, _ => 1
  end.

(** Modelled from the spec: [encode] of section 4.1 on one coordinate (the
    package's encoder is missing): a number is its own code, a label is
    its position, as an ordinal or as a one-hot block. *)
Definition encode_value (enc : categorical_encoding) (d : Dimension) (v : value)
  : option (list Q) :=
  match d, v with
  | Continuous _ _ _, VFloat x => Some [x]
  | Integer _ _, VInt z => Some [inject_Z z]
  | Categorical labels, VStr s =>
      i ← index_of s labels;
      match enc with
      | Ordinal => Some [inject_Z (Z.of_nat i)]
      | OneHot => Some (one_hot (length labels) i)
      end
  | _, _ => None
  end.

(** Modelled from the spec: [decode] of section 4.1 on the block of one
    coordinate (the package's decoder is missing). *)
Definition decode_block (enc : categorical_encoding) (d : Dimension) (block : list Q)
  : option value :=
  match d, block with
  | Continuous _ _ _, [x] => Some (VFloat x)
  | Integer _ _, [x] => Some (VInt (round x))
  | Categorical labels, _ =>
      i ← match enc, block with
          | Ordinal, [x] => if (0 <=? round x)%Z then Some (Z.to_nat (round x)) else None
          | Ordinal, _ => None
          | OneHot, _ => argmax block
          end;
      VStr <$> labels !! i
  | _, _ => None
  end.

(** Modelled from the spec: [encode(Point) -> vector of real numbers]
    (section 4.1) of the missing package, the blocks of the coordinates in
    dimension order; [None] for a point that is not of the space. *)
Fixpoint encode (enc : categorical_encoding) (sp : list Dimension) (p : list value)
  : option (list Q) :=
  match sp, p with
  | [], [] => Some []
  | d :: sp, v :: p =>
      block ← encode_value enc d v;
      rest ← encode enc sp p;
      Some (block ++ rest)
  | _, _ => None
  end.

(** Modelled from the spec: [decode(vector) -> Point] (section 4.1) of
    the missing package: the vector is cut into blocks by the widths of the
    dimensions; [None] for a vector of the wrong length. *)
Fixpoint decode (enc : categorical_encoding) (sp : list Dimension) (v : list Q)
  : option (list value) :=
  match sp with
  | [] => match v with [] => Some [] | _ => None end
  | d :: sp =>
      let w := width enc d in
      if decide (length v < w)%nat then None
      else
        x ← decode_block enc d (take w v);
        rest ← decode enc sp (drop w v);
        Some (x :: rest)
  end.

(** Modelled from the spec: the round-trip tolerance of section 4.1: floats
    within [eps] of each other, integers and labels equal. *)
Definition close (eps : Q) (a b : value) : Prop :=
  match a, b with
  | VFloat x, VFloat y => (Qabs (x - y) <= eps)%Q
  | _, _ => a = b
  end.

(** *** Observations and the result record (section 3) *)

(** An objective value in the log: a real number, or [None] for the
    sentinel of a failed evaluation. *)
Definition Observation : Type := list value * option Q.

Definition point_of (o : Observation) : list value := o.1.
Definition value_of (o : Observation) : option Q := o.2.

(** Modelled from the spec: the OptimizationResult of section 3, returned
    by the missing minimisers: best Point, its value, the full log in
    evaluation order, and metadata. *)
Record OptimizationResult : Type := {
  best_point : list value;
  best_value : option Q;
  log : list Observation;        (* chronological *)
  iterations : nat;
  seed : option Z
}.

(** Modelled from the spec: the comparison of best-tracking (section 4.5),
    missing with the driver: a failed evaluation is the worst possible
    value. *)
Definition better (new old : option Q) : bool :=
  match new, old with
  | Some a, Some b => Qltb a b
  | Some _, None => true
  | None, _ => false
  end.

(** The smaller of two logged values, the earlier one on a tie. *)
Definition min_value (a b : option Q) : option Q :=
  if better b a then b else a.

(** Modelled from the spec: "the minimum objective value across the full
    Observation log" (section 8), in the order of [better]; [None] when
    every evaluation failed (or there is none). *)
Definition minimum (vals : list (option Q)) : option Q :=
  match vals with
  | [] => None
  | v :: vals => foldl min_value v vals
  end.

(** Modelled from the spec: the guard of the ModelLoop (section 4.5),
    "fewer than 2 distinct observed values": every value equals the
    first. *)
Definition same_value (a b : option Q) : bool :=
  match a, b with
  | Some x, Some y => Qeq_bool x y
  | None, None => true
  | _, _ => false
  end.

Definition degenerate (obs : list Observation) : bool :=
  match obs with
  | [] => true
  | o :: obs => forallb (fun o' => same_value (value_of o) (value_of o')) obs
  end.

(** Equality of points, floats compared by value. *)
Definition value_eqb (a b : value) : bool :=
  match a, b with
  | VInt x, VInt y => (x =? y)%Z
  | VFloat x, VFloat y => Qeq_bool x y
  | VStr x, VStr y => bool_decide (x = y)
  | _, _ => false
  end.

Fixpoint point_eqb (p q : list value) : bool :=
  match p, q with
  | [], [] => true
  | a :: p, b :: q => value_eqb a b && point_eqb p q
  | _, _ => false
  end.

(** *** Configuration (section 6) *)

Inductive surrogate_kind : Type :=
| ProbabilisticRegressor
| Ensemble
| RandomSearch.

(** Modelled from the spec: the configuration surface of section 6 of the
    missing minimisers. *)
Record Config : Type := {
  n_calls : Z;
  n_initial_points : Z;
  random_state : option Z;
  kind : surrogate_kind;
  acquisition_trade_off : Q;
  space : list Dimension
}.

(** Modelled from the spec: the Init state of the driver (section 4.5):
    the SearchSpace is validated, then the budget ([n_calls >= 1]) and the
    size of the warm-up design against it (section 7). *)
Definition validate (cfg : Config) : result unit :=
  if bool_decide (space cfg = []) || negb (forallb well_formed (space cfg))
  then Err InvalidSpaceError
  else if (n_calls cfg <? 1)%Z then Err InvalidConfigurationError
  else if (n_initial_points cfg <? 0)%Z || (n_calls cfg <? n_initial_points cfg)%Z
  then Err InvalidConfigurationError
  else Ok ().

(** A logged value is the objective at the logged point. *)
Definition evaluated (objective : list value -> option Q) (o : Observation) : Prop :=
  value_of o = objective (point_of o).

Section Driver.

(** The random generator, the surrogate models and the acquisition
    function are components of the missing package; the driver is
    written over their interfaces. Every component that draws random
    numbers takes the generator and returns it advanced. *)
Context {Rng Model : Type}.

(** The generator seeded from an integer. *)
Variable seed_rng : Z -> Rng.
(** One coordinate drawn in the domain of a dimension. *)
Variable draw : Dimension -> Rng -> value * Rng.
(** [fit]: a surrogate fitted on the whole log, [None] on a
    SurrogateFitError. *)
Variable fit : surrogate_kind -> list Observation -> Rng -> option Model * Rng.
(** [propose]: the maximiser of the acquisition score, given the
    trade-off and the best value observed so far. *)
Variable propose :
  list Dimension -> Model -> Q -> option Q -> Rng -> list value * Rng.
(** The bound on re-sampling a colliding point of the initial design. *)
Variable retries : nat.

(** Modelled from the spec: one point of [sample] (section 4.1), a
    coordinate per dimension, in dimension order. *)
Fixpoint sample_point (sp : list Dimension) (rng : Rng) : list value * Rng :=
  match sp with
  | [] => ([], rng)
  | d :: sp =>
      let '(v, rng) := draw d rng in
      let '(p, rng) := sample_point sp rng in
      (v :: p, rng)
  end.

(** Modelled from the spec: reject-and-resample on collision, up to
    [n] more tries, then the duplicate is accepted (section 4.2). *)
Fixpoint sample_fresh (n : nat) (sp : list Dimension) (seen : list (list value))
    (rng : Rng) : list value * Rng :=
  let '(p, rng') := sample_point sp rng in
  match n with
  | O => (p, rng')
  | S n =>
      if existsb (point_eqb p) seen then sample_fresh n sp seen rng'
      else (p, rng')
  end.

(** Modelled from the spec: [initial_design] (section 4.2), the [n]
    points evaluated before any surrogate exists. *)
Fixpoint initial_design (sp : list Dimension) (n : nat) (seen : list (list value))
    (rng : Rng) : list (list value) * Rng :=
  match n with
  | O => ([], rng)
  | S n =>
      let '(p, rng) := sample_fresh retries sp seen rng in
      let '(ps, rng) := initial_design sp n (seen ++ [p]) rng in
      (p :: ps, rng)
  end.

(** The state of a run: the log, the running best and the generator. *)
Record state : Type := {
  observations : list Observation;
  best : option Observation;
  rng : Rng
}.

(** Modelled from the spec: best-tracking of the missing driver (the
    "running best" of the Result Record, section 2): the running best
    changes only for a strictly better value. *)
Definition track (b : option Observation) (o : Observation) : option Observation :=
  match b with
  | None => Some o
  | Some b => if better (value_of o) (value_of b) then Some o else Some b
  end.

(** Modelled from the spec: one evaluation of the missing driver
    (section 4.5): the objective is evaluated at [p] and the Observation
    appended to the log. *)
Definition observe (objective : list value -> option Q) (st : state) (p : list value)
  : state :=
  let o := (p, objective p) in
  {| observations := observations st ++ [o];
     best := track (best st) o;
     rng := rng st |}.

(** Modelled from the spec: the next point of the ModelLoop (section
    4.5). Random search proposes a random point; otherwise the surrogate
    is fitted on the whole log and the acquisition function proposes,
    with a random point instead when the log is degenerate or the fit
    fails. *)
Definition next_point (cfg : Config) (st : state) : list value * Rng :=
  match kind cfg with
  | RandomSearch => sample_point (space cfg) (rng st)
  | k =>
      if degenerate (observations st) then sample_point (space cfg) (rng st)
      else
        match fit k (observations st) (rng st) with
        | (Some m, rng) =>
            propose (space cfg) m (acquisition_trade_off cfg)
                    (best st ≫= value_of) rng
        | (None, rng) => sample_point (space cfg) rng
        end
  end.

(** The running best of a state is the best of its log. *)
Definition consistent (st : state) : Prop :=
  best st = foldl track None (observations st).

(** Modelled from the spec: one iteration of the ModelLoop of the
    missing driver: propose, evaluate, append. *)
Definition model_step (objective : list value -> option Q) (cfg : Config) (st : state)
  : state :=
  let '(p, rng) := next_point cfg st in
  observe objective
          {| observations := observations st; best := best st; rng := rng |} p.

(** Modelled from the spec: WarmUp (section 4.5), the initial design
    evaluated point by point. *)
Definition warm_up (objective : list value -> option Q) (cfg : Config) (rng : Rng)
  : state :=
  let '(ps, rng) :=
    initial_design (space cfg) (Z.to_nat (n_initial_points cfg)) [] rng in
  foldl (observe objective) {| observations := []; best := None; rng := rng |} ps.

(** Modelled from the spec: the driver (section 4.5): Init, WarmUp,
    ModelLoop until the budget is spent, Terminal. Without an explicit
    [random_state] the generator is seeded from the ambient [entropy]. *)
Definition minimize (objective : list value -> option Q) (cfg : Config) (entropy : Z)
  : result OptimizationResult :=
  _ <-! validate cfg;
  let rng := seed_rng (default entropy (random_state cfg)) in
  let st := warm_up objective cfg rng in
  let st := Nat.iter (Z.to_nat (n_calls cfg - n_initial_points cfg))
                     (model_step objective cfg) st in
  match best st with
  | Some (p, v) =>
      Ok {| best_point := p;
            best_value := v;
            log := observations st;
            iterations := length (observations st);
            seed := random_state cfg |}
  | None => Err InvalidConfigurationError
  end.

End Driver.

(** The result as the notebook reads it: [fun] and [func_vals]; a failed
    evaluation has no number to show. *)
Definition func_vals (res : OptimizationResult) : option (list Q) :=
  mapM value_of (log res).

End Smbo.

(** ** The notebook's three runs *)

Module Run.
Import Syntax Smbo.

Definition as_int (v : value) : option Z :=
  match v with VInt z => Some z | _ => None end.

(** Modelled from the spec: the surrogate kind behind each of the missing
    minimisers (sections 1 and 6): Gaussian process, forest, none. *)
Definition kind_of (minimizer : string) : option surrogate_kind :=
  if decide (minimizer = "gp_minimize") then Some ProbabilisticRegressor
  else if decide (minimizer = "forest_minimize") then Some Ensemble
  else if decide (minimizer = "dummy_minimize") then Some RandomSearch
  else None.

(** Modelled from the spec: how the missing minimisers read their
    arguments into the configuration of section 6. The notebook passes the
    budget under the keyword [maxiter]; the size of the warm-up design and
    the trade-off are not passed and keep the package's defaults, which
    are parameters here. *)
Definition config_of (n_initial : Z) (trade_off : Q) (sp : list Dimension) (c : site)
  : option Config :=
  minimizer ← head (callee c);
  k ← kind_of minimizer;
  budget ← Program.keyword "maxiter" c ≫= as_int;
  Some {| n_calls := budget;
          n_initial_points := n_initial;
          random_state := Program.keyword "random_state" c ≫= as_int;
          kind := k;
          acquisition_trade_off := trade_off;
          space := sp |}.

(** The space the notebook's bounds construct. *)
Definition dimensions (n_features : Z) : list Dimension :=
  [Integer 1 5; Continuous (1 # 100000) (1 # 10) true; Integer 1 n_features;
   Integer 2 30; Integer 1 30].

Section Runs.
Context {Rng Model : Type}.
Variable seed_rng : Z -> Rng.
Variable draw : Dimension -> Rng -> value * Rng.
Variable fit : surrogate_kind -> list Observation -> Rng -> option Model * Rng.
Variable propose :
  list Dimension -> Model -> Q -> option Q -> Rng -> list value * Rng.
Variable retries : nat.
Variable cross_val_score : gmap string value -> Z -> Z -> string -> list Q.
Variable n_features : Z.
Variable n_initial : Z.
Variable trade_off : Q.

(** [minimizer(objective, space, maxiter=50, random_state=0)]: the space
    is constructed from the bounds and the driver run on [objective]. *)
Definition run (c : site) (entropy : Z) : result OptimizationResult :=
  sp <-! make_space (Notebook.space n_features);
  match config_of n_initial trade_off sp c with
  | Some cfg =>
      minimize seed_rng draw fit propose retries
               (Notebook.objective_value cross_val_score) cfg entropy
  | None => Err InvalidConfigurationError
  end.

End Runs.

End Run.

(** ** A small instance of the missing components

    A linear congruential generator, a surrogate that remembers the log and
    an acquisition that samples: enough to run the driver on concrete
    inputs. *)

Module Demo.
Import Smbo.

Definition modulus : Z := 2147483648.

Definition next (s : Z) : Z := ((1103515245 * s + 12345) `mod` modulus)%Z.

Definition seed_rng (s : Z) : Z := (s `mod` modulus)%Z.

Definition draw (d : Dimension) (s : Z) : value * Z :=
  let s' := next s in
  let r := (s' `div` 65536)%Z in
  (match d with
   | Integer low high => VInt (low + r `mod` (high - low + 1))%Z
   | Continuous low high _ =>
       VFloat (Qred (low + (high - low) * ((r `mod` 1024)%Z # 1024)))%Q
   | Categorical labels =>
       VStr (default "" (labels !! Z.to_nat (r `mod` Z.of_nat (length labels))))
   end, s').

Definition fit (k : surrogate_kind) (obs : list Observation) (s : Z)
  : option (list Observation) * Z :=
  (match k with RandomSearch => None | _ => Some obs end, next s).

Definition propose (sp : list Dimension) (m : list Observation) (trade_off : Q)
    (best : option Q) (s : Z) : list value * Z :=
  sample_point draw sp s.

Definition retries : nat := 3.

(** Two points of the notebook's space and a short sequence of objective
    values. *)
Definition point_a : list value := [VInt 3; VFloat (1 # 20); VInt 6; VInt 4; VInt 2].
Definition point_b : list value := [VInt 5; VFloat (1 # 50); VInt 9; VInt 10; VInt 1].
Definition values : list Q := [3; 2; 5 # 2; 1]%Q.

(** The same values in another order, values nowhere worse, and their
    curves. *)
Definition values_shuffled : list Q := [1; 5 # 2; 3; 2]%Q.
Definition values_better : list Q := [3; 3 # 2; 2; 1 # 2]%Q.
Definition curve : list Q :=
  Eval vm_compute in default [] (Notebook.best_curve values).
Definition curve_better : list Q :=
  Eval vm_compute in default [] (Notebook.best_curve values_better).

(** A mixed space and a point of it. *)
Definition mixed_space : list Dimension :=
  [Categorical ["a"; "b"; "c"]; Integer (-3) 7; Continuous (1 # 2) 2 true].
Definition mixed_point : list value := [VStr "c"; VInt (-2); VFloat (5 # 4)].

(** Five fold scores computed from the estimator's [max_depth] and
    [min_samples_leaf]. *)
Definition cross_val_score (est : gmap string value) (cv n_jobs : Z) (scoring : string)
  : list Q :=
  let d := default 0%Z (est !! "max_depth" ≫= Run.as_int) in
  let l := default 0%Z (est !! "min_samples_leaf" ≫= Run.as_int) in
  map (fun k => (- ((6 - d) * (6 - d) + l + k)%Z # 4)%Q) (seqZ 0 cv).

Definition drive := Smbo.minimize seed_rng draw fit propose retries.

(** A seeded and an unseeded configuration over [mixed_space], and an
    objective on it that fails on the label ["b"]. *)
Definition config (state : option Z) : Config :=
  {| n_calls := 8; n_initial_points := 3; random_state := state;
     kind := Ensemble; acquisition_trade_off := 196 # 100;
     space := mixed_space |}.

Definition bowl (p : list value) : option Q :=
  match p with
  | [VStr s; VInt z; VFloat x] =>
      if decide (s = "b") then None else Some (inject_Z (z * z) + x)%Q
  | _ => None
  end.

Definition unwrap (r : result OptimizationResult) : OptimizationResult :=
  match r with
  | Ok res => res
  | Err _ =>
      {| best_point := []; best_value := None; log := []; iterations := 0;
         seed := None |}
  end.

Definition outcome : OptimizationResult :=
  Eval vm_compute in unwrap (drive bowl (config (Some 1%Z)) 0).

Definition notebook_run :=
  Run.run seed_rng draw fit propose retries cross_val_score 13 10 (196 # 100).

(** The objective values of [point_a] and [point_b] under
    [cross_val_score], their curve and its second entry. *)
Definition values_ab : list Q :=
  Eval vm_compute in
    default [] (mapM (Notebook.objective_value cross_val_score) [point_a; point_b]).
Definition curve_ab : list Q :=
  Eval vm_compute in default [] (Notebook.best_curve values_ab).
Definition best_ab : Q := Eval vm_compute in default 0%Q (curve_ab !! 1%nat).

End Demo.

(** ** Names read and bound by the program *)

Module Scope.
Import Syntax.

(** Python's builtins the notebook relies on. *)
Definition builtins : list string := ["print"; "range"].

(** The names an expression reads. Attribute and keyword names are not
    variables; the variable of a comprehension is bound in its body. *)
Fixpoint reads (e : expr) : list string :=
  match e with
  | Name id => [id]
  | Const _ => []
  | Attr e _ => reads e
  | Call f args kw =>
      reads f ++ flat_map reads args ++ flat_map (fun p => reads (snd p)) kw
  | Tuple es | ListE es => flat_map reads es
  | Subscript e i => reads e ++ reads i
  | SliceTo e h => reads e ++ reads h
  | BinOp _ a b => reads a ++ reads b
  | Neg e => reads e
  | ListComp b v it => reads it ++ filter (fun x => x ≠ v) (reads b)
  | Commented e _ => reads e
  end.

(** The names an assignment target binds: a name, or the names of a
    tuple of targets. An item assignment [a[k] = ...] binds nothing. *)
Fixpoint binds (t : expr) : list string :=
  match t with
  | Name id => [id]
  | Tuple ts => flat_map binds ts
  | _ => []
  end.

(** The names evaluating an assignment target reads: those of the object
    and the key of an item assignment. *)
Fixpoint target_reads (t : expr) : list string :=
  match t with
  | Name _ => []
  | Tuple ts => flat_map target_reads ts
  | _ => reads t
  end.

Definition stmt_binds (s : stmt) : list string :=
  match s with
  | Magic _ | ExprStmt _ | Return _ => []
  | ImportAs _ a => [a]
  | FromImport _ n => [n]
  | Assign ts _ => flat_map binds ts
  | Def name _ _ => [name]
  end.

(** The local names of a function: its parameters and every name its
    body binds. *)
Definition locals (params : list string) (body : list stmt) : list string :=
  params ++ flat_map stmt_binds body.

(** The global names a statement needs. A [def] is charged the names its
    body reads that are not local to the function (Python looks them up
    when the function is called; here they must exist when it is
    defined). *)
Fixpoint stmt_reads (s : stmt) : list string :=
  match s with
  | Magic _ | ImportAs _ _ | FromImport _ _ => []
  | Assign ts e => reads e ++ flat_map target_reads ts
  | ExprStmt e | Return e => reads e
  | Def _ params body =>
      filter (fun x => x ∉ locals params body) (flat_map stmt_reads body)
  end.

(** The reads of a statement sequence that find their name unbound,
    given the names [bound] before the sequence runs. *)
Fixpoint unbound (bound : list string) (prog : list stmt) : list string :=
  match prog with
  | [] => []
  | s :: prog =>
      filter (fun x => x ∉ bound) (stmt_reads s)
        ++ unbound (stmt_binds s ++ bound) prog
  end.

(** Inside a function, the reads of a local name that come before the
    statement binding it (Python's [UnboundLocalError]). *)
Definition local_unbound (s : stmt) : list string :=
  match s with
  | Def _ params body =>
      filter (fun x => x ∈ locals params body) (unbound params body)
  | _ => []
  end.

End Scope.

(** ** The printed reports *)

Module Report.
Import Syntax.

Definition newline : string := String (Ascii.ascii_of_nat 10) EmptyString.

(** [s.split(c)] for a separator [c] of one character. *)
Fixpoint split_on (c : string) (s : string) : list string :=
  match s with
  | EmptyString => [EmptyString]
  | String a s =>
      if decide (String a EmptyString = c) then EmptyString :: split_on c s
      else match split_on c s with
           | l :: ls => String a l :: ls
           | [] => [String a EmptyString]
           end
  end.

Fixpoint strip_prefix (p s : string) : option string :=
  match p, s with
  | EmptyString, _ => Some s
  | String a p, String b s => if decide (a = b) then strip_prefix p s else None
  | _, _ => None
  end.

Fixpoint last_char (s : string) : string :=
  match s with
  | EmptyString => EmptyString
  | String a EmptyString => String a EmptyString
  | String _ s => last_char s
  end.

(** A line [- label=%conv] of a report template: the label and the
    conversion type, the last character of the conversion. *)
Definition field (line : string) : option (string * string) :=
  rest ← strip_prefix "- " line;
  match split_on "=" rest with
  | [label; conv] => Some (label, last_char conv)
  | _ => None
  end.

(** The fields of a template: its lines after the heading. *)
Definition fields (template : string) : list (string * string) :=
  omap field (tail (split_on newline template)).

(** An argument [res.x[i]] of a report: the result and the index. *)
Definition coordinate (e : expr) : option (string * Z) :=
  match e with
  | Subscript (Attr (Name r) f) (Const (VInt i)) =>
      if decide (f = "x") then Some (r, i) else None
  | _ => None
  end.

(** What a statement does with a result of an optimiser. *)
Inductive event : Type :=
| Optimized (minimizer result : string)   (* result = minimizer(...) *)
| Scored (result : string)                (* "..." % result.fun *)
| Reported (result : string) (labels conversions : list string) (indices : list Z).

Definition same_result (cs : list (string * Z)) : option string :=
  match cs with
  | [] => None
  | (r, _) :: _ => if forallb (fun c => bool_decide (c.1 = r)) cs then Some r else None
  end.

Definition event_of (s : stmt) : option event :=
  match s with
  | Assign [Name r] (Call (Name f) _ _) =>
      if decide (Program.module_of f = Some "skopt") then Some (Optimized f r) else None
  | ExprStmt (BinOp op (Const (VStr _)) (Attr (Name r) f)) =>
      if decide (op = "%" ∧ f = "fun") then Some (Scored r) else None
  | ExprStmt (Call (Name f) [BinOp op (Const (VStr t)) (Tuple args)] []) =>
      if decide (f = "print" ∧ op = "%") then
        cs ← mapM coordinate args;
        r ← same_result cs;
        Some (Reported r (fields t).*1 (fields t).*2 cs.*2)
      else None
  | _ => None
  end.

Definition events : list event := omap event_of Program.notebook.

(** The conversion that prints a coordinate of a dimension whole: [d]
    for integer bounds, [f] for float bounds. *)
Definition conversion (t : list value) : string :=
  match t with
  | VInt _ :: VInt _ :: _ => "d"
  | _ => "f"
  end.

(** The events of one optimiser's cells, for a space with the given
    dimension names and bounds. *)
Definition expected (names : list string) (bounds : list (list value))
    (minimizer result : string) : list event :=
  [ Optimized minimizer result;
    Scored result;
    Reported result names (conversion <$> bounds)
             (Z.of_nat <$> seq 0 (length bounds)) ].

End Report.

(** * Properties *)

(** ** The program text *)

Module ProgramFacts.
Import Syntax Program.

Lemma optimizer_calls_callees :
  map callee optimizer_calls
  = [["gp_minimize"]; ["forest_minimize"]; ["dummy_minimize"]].
Proof. reflexivity. Qed.

(** C2, as stated, fails: no optimiser invocation of the notebook passes a
    keyword [n_calls]; the call of [gp_minimize] is the first without
    it. *)
Lemma budget_keyword_is_not_n_calls :
  ¬ Forall (fun c => supplies "n_calls" c ∧ supplies "random_state" c) optimizer_calls.
Proof.
  intros H. apply Forall_cons in H as [[[v Hv] _] _].
  vm_compute in Hv. discriminate Hv.
Qed.

(** C2, amended: each of the three optimiser invocations ([gp_minimize],
    [forest_minimize], [dummy_minimize]) passes exactly two keywords, the
    budget as [maxiter=50] and the seed as [random_state=0]; none passes
    [n_calls]. *)
Theorem optimizer_calls_pass_maxiter_and_seed :
  map callee optimizer_calls
    = [["gp_minimize"]; ["forest_minimize"]; ["dummy_minimize"]]
  ∧ Forall (fun c =>
              keyword_names c = ["maxiter"; "random_state"]
              ∧ keyword "maxiter" c = Some (VInt 50)
              ∧ keyword "random_state" c = Some (VInt 0)
              ∧ keyword "n_calls" c = None)
           optimizer_calls.
Proof.
  split; [reflexivity|].
  repeat (apply Forall_cons; split; [by vm_compute|]).
  apply Forall_nil_2.
Qed.

(** In the body of [objective] every unpacked name is passed to
    [set_params] under the keyword of the same name, and
    [cross_val_score] is called on [reg], [X], [y] with [cv=5],
    [n_jobs=-1] and the mean absolute error as scoring. *)
Lemma objective_body :
  map (fun c => (callee c, keywords c)) (stmt_calls objective_def)
  = [ (["reg"; "set_params"], (fun n => (n, Name n)) <$> objective_params);
      (["np"; "mean"], []);
      (["cross_val_score"],
       [("cv", int 5); ("n_jobs", Neg (int 1)); ("scoring", str "mean_absolute_error")]) ]
  ∧ map positional (stmt_calls objective_def)
    = [ [];
        [Call (Name "cross_val_score") [Name "reg"; Name "X"; Name "y"]
           [("cv", int 5); ("n_jobs", Neg (int 1));
            ("scoring", str "mean_absolute_error")]];
        [Name "reg"; Name "X"; Name "y"] ].
Proof. split; reflexivity. Qed.

(** C6: the notebook performs no optimisation of its own. The names it
    imports from [skopt] are [gp_minimize], [forest_minimize] and
    [dummy_minimize], each called once, at top level; the only function it
    defines is [objective], whose body calls [reg.set_params],
    [cross_val_score] and [np.mean] and nothing else; every other call
    loads the data, builds the estimator, prints, or computes and plots
    the running minima ([range], [np.min], [plt.plot], [plt.legend],
    [plt.show]); nothing is imported but numpy, matplotlib, three
    scikit-learn names and the three minimisers. *)
Theorem notebook_has_no_optimisation_logic :
  names_from "skopt" = ["gp_minimize"; "forest_minimize"; "dummy_minimize"]
  ∧ map callee (calls_into "skopt" run_calls)
    = [["gp_minimize"]; ["forest_minimize"]; ["dummy_minimize"]]
  ∧ calls_into "skopt" (stmt_calls objective_def) = []
  ∧ flat_map defined notebook = ["objective"]
  ∧ map callee (stmt_calls objective_def)
    = [["reg"; "set_params"]; ["np"; "mean"]; ["cross_val_score"]]
  ∧ callees (filter (fun c => site_module c ≠ Some "skopt") run_calls)
    = [["load_boston"]; ["GradientBoostingRegressor"]; ["print"];
       ["np"; "min"]; ["plt"; "plot"]; ["range"]; ["plt"; "legend"]; ["plt"; "show"]]
  ∧ imports
    = [("np", "numpy"); ("plt", "matplotlib.pyplot");
       ("load_boston", "sklearn.datasets");
       ("GradientBoostingRegressor", "sklearn.ensemble");
       ("cross_val_score", "sklearn.model_selection");
       ("gp_minimize", "skopt"); ("forest_minimize", "skopt");
       ("dummy_minimize", "skopt")].
Proof. repeat split; by vm_compute. Qed.

End ProgramFacts.

(** ** The notebook's functions *)

Module NotebookFacts.
Import Notebook.

(** The literal of cell 3 evaluates to [space]. *)
Lemma eval_space_expr (nf : Z) :
  eval_space nf Program.space_expr = Some (space nf).
Proof. reflexivity. Qed.

Lemma objective_params_eq :
  Program.objective_params
  = ["max_depth"; "learning_rate"; "max_features"; "min_samples_split";
     "min_samples_leaf"].
Proof. reflexivity. Qed.

Lemma space_comments_eq : space_comments = Program.objective_params.
Proof. reflexivity. Qed.

(** A list of five values, spelled out. *)
Lemma five_values (p : list value) :
  length p = 5%nat → ∃ a b c d e, p = [a; b; c; d; e].
Proof.
  destruct p as [|a [|b [|c [|d [|e [|]]]]]]; simpl; try discriminate.
  intros _. by exists a, b, c, d, e.
Qed.

(** After [set_params], the estimator holds the keywords in the order of
    [objective_params]. *)
Lemma set_params_lookup (reg : gmap string value) (p : list value) i name :
  length p = 5%nat →
  Program.objective_params !! i = Some name →
  set_params (zip Program.objective_params p) reg !! name = p !! i.
Proof.
  intros Hp Hi. destruct (five_values p Hp) as (a & b & c & d & e & ->).
  rewrite objective_params_eq in *.
  unfold set_params. simpl.
  destruct i as [|[|[|[|[|i]]]]]; simpl in Hi; simplify_eq; simpl;
    by simplify_map_eq.
Qed.

(** Parameters [set_params] does not name keep their value. *)
Lemma set_params_other (reg : gmap string value) (p : list value) name :
  name ∉ Program.objective_params →
  set_params (zip Program.objective_params p) reg !! name = reg !! name.
Proof.
  intros Hn. unfold set_params.
  revert reg. generalize dependent Program.objective_params.
  intros names. revert p. induction names as [|n names IH]; intros p Hn reg.
  - done.
  - destruct p as [|v p]; [done|]. simpl.
    rewrite IH by set_solver. apply lookup_insert_ne. set_solver.
Qed.

Section WithScores.
Variable cross_val_score : gmap string value -> Z -> Z -> string -> list Q.

Lemma objective_eq (reg : gmap string value) (p : list value) :
  length p = 5%nat →
  objective cross_val_score reg p
  = Some (set_params (zip Program.objective_params p) reg,
          (- mean_score cross_val_score (set_params (zip Program.objective_params p) reg))%Q).
Proof.
  intros Hp. by destruct (five_values p Hp) as (a & b & c & d & e & ->).
Qed.

(** Unpacking fails on any other number of values. *)
Lemma objective_wrong_length (reg : gmap string value) (p : list value) :
  length p ≠ 5%nat → objective cross_val_score reg p = None.
Proof.
  destruct p as [|a [|b [|c [|d [|e [|]]]]]]; simpl; intros H; done.
Qed.

(** C1: [objective] takes one point, a sequence of as many values as
    [space] has dimensions, and returns one number. It unpacks the point
    into the names written, in the same order, as comments on the lines
    of [space], and the value at position [i] of the point is what the
    estimator's parameter of the [i]-th dimension is set to. *)
Theorem objective_follows_space_order
    (reg : gmap string value) (nf : Z) (params : list value) :
  length params = length (space nf) →
  Program.objective_params = space_comments
  ∧ ∃ (est : gmap string value) (r : Q),
      objective cross_val_score reg params = Some (est, r)
      ∧ ∀ i name, space_comments !! i = Some name →
          is_Some (space nf !! i) ∧ est !! name = params !! i.
Proof.
  intros Hp. change (length (space nf)) with 5%nat in Hp.
  split; [reflexivity|].
  eexists _, _. split; [by apply objective_eq|].
  intros i name Hi. rewrite space_comments_eq in Hi. split.
  - apply lookup_lt_is_Some. apply lookup_lt_Some in Hi. exact Hi.
  - by apply set_params_lookup.
Qed.

(** C9: on a point of five values [objective] sets [max_depth],
    [learning_rate], [max_features], [min_samples_split] and
    [min_samples_leaf] of the estimator from the point, leaves its other
    parameters alone, and returns the negated mean of [cross_val_score]
    with [cv=5] and [scoring="mean_absolute_error"] on that estimator;
    of two points, the one with the higher mean score has the strictly
    lower objective value. *)
Theorem objective_is_negated_mean_score
    (reg reg' : gmap string value) (p q : list value) :
  length p = 5%nat → length q = 5%nat →
  ∃ (est_p est_q : gmap string value),
    objective cross_val_score reg p = Some (est_p, (- mean_score cross_val_score est_p)%Q)
    ∧ objective cross_val_score reg' q = Some (est_q, (- mean_score cross_val_score est_q)%Q)
    ∧ (∀ i name, Program.objective_params !! i = Some name →
         est_p !! name = p !! i ∧ est_q !! name = q !! i)
    ∧ (∀ name, name ∉ Program.objective_params →
         est_p !! name = reg !! name ∧ est_q !! name = reg' !! name)
    ∧ (∀ vp vq,
         snd <$> objective cross_val_score reg p = Some vp →
         snd <$> objective cross_val_score reg' q = Some vq →
         (mean_score cross_val_score est_p < mean_score cross_val_score est_q)%Q → (vq < vp)%Q).
Proof.
  intros Hp Hq.
  exists (set_params (zip Program.objective_params p) reg),
         (set_params (zip Program.objective_params q) reg').
  rewrite !objective_eq by done. repeat split.
  - by apply set_params_lookup.
  - by apply set_params_lookup.
  - by apply set_params_other.
  - by apply set_params_other.
  - simpl. intros vp vq [= <-] [= <-] Hlt. by apply Qopp_lt_compat.
Qed.

(** The number returned does not depend on what earlier calls left in
    the five parameters of the estimator. *)
Lemma objective_value_state_independent (reg1 reg2 : gmap string value) p :
  (∀ name, name ∉ Program.objective_params → reg1 !! name = reg2 !! name) →
  snd <$> objective cross_val_score reg1 p = snd <$> objective cross_val_score reg2 p.
Proof.
  intros Hagree. destruct (decide (length p = 5%nat)) as [Hp|Hp].
  - rewrite !objective_eq by done.
    assert (set_params (zip Program.objective_params p) reg1
            = set_params (zip Program.objective_params p) reg2) as ->; [|done].
    apply map_eq. intros name.
    destruct (decide (name ∈ Program.objective_params)) as [Hin|Hout].
    + apply list_elem_of_lookup in Hin as [i Hi].
      by rewrite !(set_params_lookup _ _ i).
    + rewrite !set_params_other by done. by apply Hagree.
  - by rewrite !objective_wrong_length.
Qed.

(** Calling [objective] again and again on the one global estimator
    returns, for each point, what a call on the fresh [reg] returns: the
    optimiser can treat the objective as a function of the point. *)
Lemma call_sequence_values (r : gmap string value) (points : list (list value)) :
  (∀ name, name ∉ Program.objective_params → r !! name = reg !! name) →
  call_sequence cross_val_score r points = objective_value cross_val_score <$> points.
Proof.
  revert r. induction points as [|p points IH]; intros r Hr; [done|].
  rewrite fmap_cons. unfold objective_value at 1.
  rewrite <- (objective_value_state_independent r reg p Hr).
  cbn [call_sequence].
  destruct (decide (length p = 5%nat)) as [Hp|Hp].
  - rewrite objective_eq by done. rewrite IH; [done|].
    intros name Hname. rewrite set_params_other by done. by apply Hr.
  - rewrite objective_wrong_length by done. by rewrite IH.
Qed.

End WithScores.

(** *** Running minima *)

Lemma foldl_Qmin_le_init (l : list Q) (x : Q) : (foldl Qmin x l <= x)%Q.
Proof.
  revert x. induction l as [|y l IH]; intros x; simpl.
  - apply Qle_refl.
  - eapply Qle_trans; [apply IH|]. apply Q.le_min_l.
Qed.

(** The minimum of a longer prefix is not above that of a shorter one. *)
Lemma np_min_take_anti (fv : list Q) (i j : nat) (a b : Q) :
  (i ≤ j)%nat →
  np_min (take (i + 1) fv) = Some a →
  np_min (take (j + 1) fv) = Some b →
  (b <= a)%Q.
Proof.
  intros Hij. destruct fv as [|x t]; [by rewrite take_nil|].
  rewrite !Nat.add_1_r. simpl. intros [= <-] [= <-].
  replace j with (i + (j - i)) by lia.
  rewrite <- take_take_drop, foldl_app. apply foldl_Qmin_le_init.
Qed.

Lemma np_min_take_is_Some (fv : list Q) (i : nat) :
  fv ≠ [] → is_Some (np_min (take (i + 1) fv)).
Proof. destruct fv; [done|]. rewrite Nat.add_1_r. by eexists. Qed.

(** The curve is defined as soon as there is one value, and its [i]-th
    entry is the negated minimum of the first [i + 1] values. *)
Lemma best_curve_defined (fv : list Q) :
  fv ≠ [] →
  ∃ curve, best_curve fv = Some curve
    ∧ length curve = n_points
    ∧ ∀ i, (i < n_points)%nat →
        Some <$> curve !! i = Some (Qopp <$> np_min (take (i + 1) fv)).
Proof.
  intros Hfv. unfold best_curve.
  destruct (mapM (λ i, Qopp <$> np_min (take (i + 1) fv)) (seq 0 n_points))
    as [curve|] eqn:Hc.
  - exists curve. split; [done|]. apply mapM_Some in Hc.
    split; [by rewrite <- (Forall2_length _ _ _ Hc), length_seq|].
    intros i Hi.
    destruct (Forall2_lookup_l _ _ _ i i Hc) as (y & Hy & Hf).
    { apply lookup_seq. lia. }
    rewrite Hy. simpl. by rewrite Hf.
  - apply mapM_None, Exists_exists in Hc as (i & _ & Hi).
    by destruct (np_min_take_is_Some fv i Hfv) as [m Hm]; rewrite Hm in Hi.
Qed.

(** C10: each plotted curve is non-decreasing: for a result with at
    least one value and [i <= j < 50], the plotted [-min(func_vals[:i+1])]
    is at most [-min(func_vals[:j+1])]. *)
Theorem best_curve_monotone (fv : list Q) (i j : nat) :
  fv ≠ [] → (i ≤ j)%nat → (j < n_points)%nat →
  ∃ (curve : list Q) (a b : Q),
    best_curve fv = Some curve
    ∧ curve !! i = Some a ∧ Some a = Qopp <$> np_min (take (i + 1) fv)
    ∧ curve !! j = Some b ∧ Some b = Qopp <$> np_min (take (j + 1) fv)
    ∧ (a <= b)%Q.
Proof.
  intros Hfv Hij Hj.
  destruct (best_curve_defined fv Hfv) as (curve & Hc & Hlen & Hat).
  pose proof (Hat i ltac:(lia)) as Hi. pose proof (Hat j Hj) as Hj'.
  destruct (np_min_take_is_Some fv i Hfv) as [mi Hmi].
  destruct (np_min_take_is_Some fv j Hfv) as [mj Hmj].
  rewrite Hmi in Hi. rewrite Hmj in Hj'. simpl in Hi, Hj'.
  destruct (curve !! i) as [a|] eqn:Ha; [|done].
  destruct (curve !! j) as [b|] eqn:Hb; [|done].
  simpl in Hi, Hj'. simplify_eq.
  exists curve, (- mi)%Q, (- mj)%Q. rewrite Hmi, Hmj. repeat split; try done.
  apply Qopp_le_compat. by apply (np_min_take_anti fv i j).
Qed.

(** *** Instances *)

Lemma objective_follows_space_order_witness :
  length Demo.point_a = length (space 13)
  ∧ (Program.objective_params = space_comments
     ∧ ∃ (est : gmap string value) (r : Q),
         objective Demo.cross_val_score reg Demo.point_a = Some (est, r)
         ∧ ∀ i name, space_comments !! i = Some name →
             is_Some (space 13 !! i) ∧ est !! name = Demo.point_a !! i).
Proof.
  split; [reflexivity|].
  apply (objective_follows_space_order Demo.cross_val_score reg 13 Demo.point_a).
  reflexivity.
Defined.

Lemma objective_is_negated_mean_score_witness :
  length Demo.point_a = 5%nat ∧ length Demo.point_b = 5%nat
  ∧ ∃ (est_p est_q : gmap string value),
      objective Demo.cross_val_score reg Demo.point_a
      = Some (est_p, (- mean_score Demo.cross_val_score est_p)%Q)
      ∧ objective Demo.cross_val_score reg Demo.point_b
        = Some (est_q, (- mean_score Demo.cross_val_score est_q)%Q)
      ∧ (∀ i name, Program.objective_params !! i = Some name →
           est_p !! name = Demo.point_a !! i ∧ est_q !! name = Demo.point_b !! i)
      ∧ (∀ name, name ∉ Program.objective_params →
           est_p !! name = reg !! name ∧ est_q !! name = reg !! name)
      ∧ (∀ vp vq,
           snd <$> objective Demo.cross_val_score reg Demo.point_a = Some vp →
           snd <$> objective Demo.cross_val_score reg Demo.point_b = Some vq →
           (mean_score Demo.cross_val_score est_p
            < mean_score Demo.cross_val_score est_q)%Q → (vq < vp)%Q).
Proof.
  split; [reflexivity|]. split; [reflexivity|].
  apply (objective_is_negated_mean_score Demo.cross_val_score reg reg
           Demo.point_a Demo.point_b); reflexivity.
Defined.

Lemma best_curve_monotone_witness :
  Demo.values ≠ [] ∧ (1 ≤ 3)%nat ∧ (3 < n_points)%nat
  ∧ ∃ (curve : list Q) (a b : Q),
      best_curve Demo.values = Some curve
      ∧ curve !! 1%nat = Some a
      ∧ Some a = Qopp <$> np_min (take (1 + 1) Demo.values)
      ∧ curve !! 3%nat = Some b
      ∧ Some b = Qopp <$> np_min (take (3 + 1) Demo.values)
      ∧ (a <= b)%Q.
Proof.
  split; [discriminate|]. split; [lia|]. split; [unfold n_points; lia|].
  apply (best_curve_monotone Demo.values 1 3);
    [discriminate | lia | unfold n_points; lia].
Defined.

End NotebookFacts.

(** ** The search space *)

Module SpaceFacts.
Import Smbo.

Lemma Qltb_lt (x y : Q) : Qltb x y = true ↔ (x < y)%Q.
Proof.
  unfold Qltb. rewrite Qlt_alt. destruct (x ?= y)%Q; split; congruence.
Qed.

Lemma Qltb_ge (x y : Q) : Qltb x y = false ↔ (y <= x)%Q.
Proof.
  rewrite <- not_true_iff_false, Qltb_lt. split.
  - apply Qnot_lt_le.
  - intros H1 H2. exact (Qlt_not_le _ _ H2 H1).
Qed.

Lemma Qleb_le (x y : Q) : Qleb x y = true ↔ (x <= y)%Q.
Proof. unfold Qleb. rewrite negb_true_iff. apply Qltb_ge. Qed.


(** *** Construction *)




Lemma well_formed_categorical (labels : list string) :
  well_formed (Categorical labels) = true → labels ≠ [] ∧ NoDup labels.
Proof.
  simpl. rewrite andb_true_iff, negb_true_iff.
  intros [H1 H2]. split.
  - by apply bool_decide_eq_false in H1.
  - by apply bool_decide_eq_true in H2.
Qed.


(** Construction removes duplicates from a tuple of labels rather than
    rejecting it. *)
Lemma dimension_of_labels (labels : list string) :
  dimension_of (VStr <$> labels) = Ok (Categorical (remove_dups labels)).
Proof.
  unfold dimension_of.
  assert (mapM label_of (VStr <$> labels) = Some labels) as ->; [|done].
  apply mapM_Some. apply Forall2_fmap_l. by apply Forall_Forall2_diag, Forall_true.
Qed.

Lemma make_notebook_space (nf : Z) :
  (1 < nf)%Z → make_space (Notebook.space nf) = Ok (Run.dimensions nf).
Proof.
  intros Hnf. unfold make_space, Notebook.space, traverse.
  unfold make_dimension. simpl.
  destruct (Z.ltb_spec 1 nf) as [_|?]; [done|lia].
Qed.








End SpaceFacts.

(** ** Encoding and decoding *)

Module EncodingFacts.
Import Smbo SpaceFacts.

Lemma round_inject_Z (z : Z) : round (inject_Z z) = z.
Proof.
  unfold round, Qfloor, Qplus, inject_Z. simpl.
  rewrite Z.mul_1_r. symmetry. apply (Z.div_unique_pos _ 2 z 1); lia.
Qed.

Lemma index_of_lookup (s : string) (labels : list string) (i : nat) :
  index_of s labels = Some i → labels !! i = Some s.
Proof.
  revert i. induction labels as [|l labels IH]; simpl; intros i; [done|].
  destruct (decide (l = s)) as [->|_].
  - by intros [= <-].
  - destruct (index_of s labels) as [k|]; [|done]. simpl.
    intros [= <-]. by apply IH.
Qed.

Lemma index_of_is_Some (s : string) (labels : list string) :
  s ∈ labels → is_Some (index_of s labels).
Proof.
  induction 1 as [s labels|s l labels _ IH]; simpl.
  - rewrite decide_True by done. by eexists.
  - destruct (decide (l = s)); [by eexists|].
    destruct IH as [k ->]. by eexists.
Qed.

Lemma length_one_hot (n i : nat) : length (one_hot n i) = n.
Proof. unfold one_hot. by rewrite length_map, length_seq. Qed.

(** *** The first maximum of a one-hot block *)

Lemma hot_same (i : nat) : hot i i = 1%Q.
Proof. unfold hot. by rewrite decide_True. Qed.

Lemma hot_other (i j : nat) : j ≠ i → hot i j = 0%Q.
Proof. intros. unfold hot. by rewrite decide_False. Qed.

(** Past the hot position nothing beats a non-negative best. *)
Lemma argmax_from_cold (i best_i : nat) (best : Q) (k m : nat) :
  (0 <= best)%Q → (i < k ∨ k + m ≤ i)%nat →
  argmax_from best_i best k (map (hot i) (seq k m)) = best_i.
Proof.
  revert k best_i. induction m as [|m IH]; intros k best_i Hbest Hi; simpl; [done|].
  rewrite hot_other by lia.
  rewrite (proj2 (Qltb_ge best 0) Hbest). apply IH; [done|lia].
Qed.

Lemma argmax_from_hot (i best_i : nat) (best : Q) (k m : nat) :
  (0 <= best)%Q → (best < 1)%Q → (k ≤ i < k + m)%nat →
  argmax_from best_i best k (map (hot i) (seq k m)) = i.
Proof.
  revert k best_i. induction m as [|m IH]; intros k best_i H0 H1 Hi; simpl; [lia|].
  destruct (decide (k = i)) as [->|Hne].
  - rewrite hot_same, (proj2 (Qltb_lt best 1) H1). apply argmax_from_cold; [lra|lia].
  - rewrite hot_other by done.
    rewrite (proj2 (Qltb_ge best 0) H0). apply IH; [done..|lia].
Qed.

Lemma argmax_one_hot (n i : nat) : (i < n)%nat → argmax (one_hot n i) = Some i.
Proof.
  intros Hi. unfold one_hot. destruct n as [|n]; [lia|]. simpl. f_equal.
  destruct (decide (0%nat = i)) as [<-|Hne].
  - rewrite hot_same. apply argmax_from_cold; [lra|lia].
  - rewrite hot_other by done. apply argmax_from_hot; [lra..|lia].
Qed.

(** *** One coordinate *)

Lemma encode_value_length enc d v block :
  encode_value enc d v = Some block → length block = width enc d.
Proof.
  destruct d as [lo hi ls|lo hi|labels], v as [z|x|s]; simpl; try done.
  - by intros [= <-]; destruct enc.
  - by intros [= <-]; destruct enc.
  - destruct (index_of s labels) as [i|]; [|done]. simpl.
    destruct enc; intros [= <-]; [done|apply length_one_hot].
Qed.

Lemma decode_encode_value enc d v :
  in_dimension d v = true →
  ∃ block, encode_value enc d v = Some block ∧ decode_block enc d block = Some v.
Proof.
  destruct d as [lo hi ls|lo hi|labels], v as [z|x|s]; simpl; try done; intros Hin.
  - by eexists.
  - eexists. split; [done|]. simpl. by rewrite round_inject_Z.
  - apply bool_decide_eq_true in Hin.
    destruct (index_of_is_Some s labels Hin) as [i Hi]. rewrite Hi. simpl.
    pose proof (index_of_lookup _ _ _ Hi) as Hl.
    destruct enc; eexists; (split; [done|]); simpl.
    + rewrite round_inject_Z.
      destruct (Z.leb_spec 0 (Z.of_nat i)); [|lia]. simpl.
      by rewrite Nat2Z.id, Hl.
    + rewrite argmax_one_hot by (by eapply lookup_lt_Some). simpl. by rewrite Hl.
Qed.

(** *** Whole points *)

(** Decoding the code of a valid point gives the point back, exactly. *)
Lemma decode_encode enc (sp : list Dimension) (p : list value) :
  valid_point sp p = true →
  ∃ v, encode enc sp p = Some v ∧ decode enc sp v = Some p.
Proof.
  revert p. induction sp as [|d sp IH]; intros [|x p]; simpl; try done.
  - by eexists.
  - rewrite andb_true_iff. intros [Hx Hp].
    destruct (decode_encode_value enc d x Hx) as (block & Henc & Hblock).
    destruct (IH p Hp) as (rest & -> & Hrest).
    pose proof (encode_value_length enc d x block Henc) as Hlen.
    rewrite Henc. simpl. exists (block ++ rest). split; [done|].
    rewrite <- Hlen, decide_False by (rewrite length_app; lia).
    by rewrite take_app_length, drop_app_length, Hblock, Hrest.
Qed.

Lemma encode_length enc (sp : list Dimension) (p : list value) (v : list Q) :
  encode enc sp p = Some v → length v = sum_list (width enc <$> sp).
Proof.
  revert p v. induction sp as [|d sp IH]; intros [|x p] v; simpl; try done.
  - by intros [= <-].
  - destruct (encode_value enc d x) as [block|] eqn:Hb; [|done]. simpl.
    destruct (encode enc sp p) as [rest|] eqn:Hr; [|done]. simpl.
    intros [= <-]. rewrite length_app.
    by rewrite (encode_value_length _ _ _ _ Hb), (IH _ _ Hr).
Qed.

Lemma close_refl (eps : Q) (v : value) : (0 <= eps)%Q → close eps v v.
Proof.
  intros Heps. destruct v as [z|x|s]; try done.
  unfold close. apply (proj2 (Qabs_Qle_condition (x - x) eps)). split; lra.
Qed.

(** C8: for every SearchSpace and every Point valid in it, decoding the
    encoding of the point succeeds and returns a point that agrees with it
    exactly in every integer and categorical coordinate and within any
    tolerance [eps >= 0] in every continuous one; a point without
    continuous coordinates is returned exactly. This holds for the ordinal
    and for the one-hot encoding of categories. *)
Theorem decode_encode_round_trip
    (enc : categorical_encoding) (sp : list Dimension) (p : list value) (eps : Q) :
  (0 <= eps)%Q → valid_point sp p = true →
  ∃ (v : list Q) (p' : list value),
    encode enc sp p = Some v ∧ decode enc sp v = Some p'
    ∧ Forall2 (close eps) p p'
    ∧ (Forall (λ x, ∀ q, x ≠ VFloat q) p → p' = p).
Proof.
  intros Heps Hp. destruct (decode_encode enc sp p Hp) as (v & Hv & Hd).
  exists v, p. repeat split; try done.
  apply Forall_Forall2_diag, Forall_forall. intros x _. by apply close_refl.
Qed.

Lemma decode_encode_round_trip_witness :
  (0 <= 1 # 1000)%Q ∧ valid_point Demo.mixed_space Demo.mixed_point = true
  ∧ ∃ (v : list Q) (p' : list value),
      encode OneHot Demo.mixed_space Demo.mixed_point = Some v
      ∧ decode OneHot Demo.mixed_space v = Some p'
      ∧ Forall2 (close (1 # 1000)) Demo.mixed_point p'
      ∧ (Forall (λ x, ∀ q, x ≠ VFloat q) Demo.mixed_point
         → p' = Demo.mixed_point).
Proof.
  split; [discriminate|]. split; [reflexivity|].
  apply (decode_encode_round_trip OneHot Demo.mixed_space Demo.mixed_point
           (1 # 1000)); [discriminate | reflexivity].
Defined.

End EncodingFacts.

(** ** The driver *)

Module DriverFacts.
Import Smbo SpaceFacts.

(** *** Minima of a log *)

Lemma Qmin_Qltb (a b : Q) : Qmin a b = if Qltb b a then b else a.
Proof.
  unfold Qmin, GenericMinMax.gmin, Qltb.
  rewrite <- (Qcompare_antisym b a). by destruct (b ?= a)%Q.
Qed.

Lemma min_value_Some (a b : Q) : min_value (Some a) (Some b) = Some (Qmin a b).
Proof. unfold min_value. simpl. rewrite Qmin_Qltb. by destruct (Qltb b a). Qed.

(** On a log without failures [minimum] is numpy's [min]. *)
Lemma minimum_np_min (fv : list Q) :
  fv ≠ [] → minimum (Some <$> fv) = Notebook.np_min fv.
Proof.
  destruct fv as [|x t]; [done|]. intros _. rewrite fmap_cons. simpl.
  revert x. induction t as [|y t IH]; intros x; [done|].
  rewrite fmap_cons. simpl. by rewrite min_value_Some, IH.
Qed.

Lemma mapM_value_of (l : list Observation) (fv : list Q) :
  mapM value_of l = Some fv → value_of <$> l = Some <$> fv.
Proof.
  intros H. apply mapM_Some in H.
  induction H as [|o x l fv Ho _ IH]; [done|]. by rewrite !fmap_cons, Ho, IH.
Qed.

Section WithDriver.
Context {Rng Model : Type}.
Variable seed_rng : Z -> Rng.
Variable draw : Dimension -> Rng -> value * Rng.
Variable fit : surrogate_kind -> list Observation -> Rng -> option Model * Rng.
Variable propose :
  list Dimension -> Model -> Q -> option Q -> Rng -> list value * Rng.
Variable retries : nat.
Variable objective : list value -> option Q.

Implicit Types (st : @state Rng) (o : Observation) (l : list Observation).

(** *** Best-tracking *)

Lemma track_value (b o : Observation) :
  value_of <$> track (Some b) o = Some (min_value (value_of b) (value_of o)).
Proof. unfold track, min_value. by destruct (better _ _). Qed.

Lemma track_Some (b o : Observation) :
  track (Some b) o = Some (if better (value_of o) (value_of b) then o else b).
Proof. unfold track. by destruct (better _ _). Qed.

Lemma foldl_track_Some (b : Observation) l :
  ∃ b', foldl track (Some b) l = Some b' ∧ b' ∈ b :: l
    ∧ value_of b' = foldl min_value (value_of b) (value_of <$> l).
Proof.
  revert b. induction l as [|o l IH]; intros b.
  - exists b. repeat split. apply list_elem_of_here.
  - rewrite fmap_cons. cbn [foldl]. rewrite track_Some.
    change (min_value (value_of b) (value_of o))
      with (if better (value_of o) (value_of b) then value_of o else value_of b).
    destruct (better (value_of o) (value_of b)).
    + destruct (IH o) as (b' & -> & Hin & Hv). exists b'.
      repeat split; [|done]. by apply list_elem_of_further.
    + destruct (IH b) as (b' & -> & Hin & Hv). exists b'.
      repeat split; [|done].
      apply elem_of_cons in Hin as [->|Hin]; [left|right; right]; done.
Qed.

(** The best of a non-empty log is one of its observations and carries
    its minimum value. *)
Lemma foldl_track_minimum l :
  l ≠ [] →
  ∃ b, foldl track None l = Some b ∧ b ∈ l
    ∧ value_of b = minimum (value_of <$> l).
Proof.
  destruct l as [|o l]; [done|]. intros _. simpl. apply foldl_track_Some.
Qed.

(** *** One evaluation *)

Lemma observe_observations st p :
  observations (observe objective st p) = observations st ++ [(p, objective p)].
Proof. done. Qed.

Lemma observe_consistent st p :
  consistent st → consistent (observe objective st p).
Proof.
  unfold consistent. intros H. simpl. by rewrite foldl_app, <- H.
Qed.

Lemma observe_evaluated st p :
  Forall (evaluated objective) (observations st) →
  Forall (evaluated objective) (observations (observe objective st p)).
Proof.
  intros H. rewrite observe_observations. apply Forall_app.
  split; [done|]. by apply Forall_singleton.
Qed.

Lemma foldl_observe_evaluated st (ps : list (list value)) :
  Forall (evaluated objective) (observations st) →
  Forall (evaluated objective) (observations (foldl (observe objective) st ps)).
Proof.
  revert st. induction ps as [|p ps IH]; intros st H; simpl; [done|].
  by apply IH, observe_evaluated.
Qed.

Lemma foldl_observe_length st (ps : list (list value)) :
  length (observations (foldl (observe objective) st ps))
  = (length (observations st) + length ps)%nat.
Proof.
  revert st. induction ps as [|p ps IH]; intros st; simpl; [lia|].
  rewrite IH, observe_observations, length_app. simpl. lia.
Qed.

Lemma foldl_observe_consistent st (ps : list (list value)) :
  consistent st → consistent (foldl (observe objective) st ps).
Proof.
  revert st. induction ps as [|p ps IH]; intros st H; simpl; [done|].
  by apply IH, observe_consistent.
Qed.

(** *** The initial design *)

Lemma initial_design_length sp n seen (g : Rng) :
  length (initial_design draw retries sp n seen g).1 = n.
Proof.
  revert seen g. induction n as [|n IH]; intros seen g; simpl; [done|].
  destruct (sample_fresh draw retries sp seen g) as [p g'].
  specialize (IH (seen ++ [p]) g').
  destruct (initial_design draw retries sp n (seen ++ [p]) g') as [ps g''].
  simpl in *. by rewrite IH.
Qed.

Lemma sample_point_length sp (g : Rng) :
  length (sample_point draw sp g).1 = length sp.
Proof.
  revert g. induction sp as [|d sp IH]; intros g; simpl; [done|].
  destruct (draw d g) as [v g']. specialize (IH g').
  destruct (sample_point draw sp g') as [p g'']. simpl in *. by rewrite IH.
Qed.

(** *** WarmUp *)

Lemma warm_up_length cfg (g : Rng) :
  length (observations (warm_up draw retries objective cfg g))
  = Z.to_nat (n_initial_points cfg).
Proof.
  unfold warm_up.
  pose proof (initial_design_length (space cfg)
                (Z.to_nat (n_initial_points cfg)) [] g) as Hlen.
  destruct (initial_design _ _ _ _ _ _) as [ps g']. simpl in Hlen.
  by rewrite foldl_observe_length, Hlen.
Qed.

Lemma warm_up_consistent cfg (g : Rng) :
  consistent (warm_up draw retries objective cfg g).
Proof.
  unfold warm_up. destruct (initial_design _ _ _ _ _ _) as [ps g'].
  by apply foldl_observe_consistent.
Qed.

Lemma warm_up_evaluated cfg (g : Rng) :
  Forall (evaluated objective) (observations (warm_up draw retries objective cfg g)).
Proof.
  unfold warm_up. destruct (initial_design _ _ _ _ _ _) as [ps g'].
  apply foldl_observe_evaluated. constructor.
Qed.

(** *** ModelLoop *)

Lemma model_step_observations cfg st :
  ∃ p, observations (model_step draw fit propose objective cfg st)
       = observations st ++ [(p, objective p)].
Proof.
  unfold model_step. destruct (next_point draw fit propose cfg st) as [p g].
  by exists p.
Qed.

Lemma model_step_consistent cfg st :
  consistent st → consistent (model_step draw fit propose objective cfg st).
Proof.
  unfold model_step. destruct (next_point draw fit propose cfg st) as [p g].
  intros H. by apply observe_consistent.
Qed.

Lemma model_loop_length cfg st (n : nat) :
  length (observations
            (Nat.iter n (model_step draw fit propose objective cfg) st))
  = (length (observations st) + n)%nat.
Proof.
  induction n as [|n IH]; simpl; [lia|].
  destruct (model_step_observations cfg
              (Nat.iter n (model_step draw fit propose objective cfg) st))
    as [p ->].
  rewrite length_app, IH. simpl. lia.
Qed.

Lemma model_loop_consistent cfg st (n : nat) :
  consistent st →
  consistent (Nat.iter n (model_step draw fit propose objective cfg) st).
Proof.
  intros H. induction n as [|n IH]; simpl; [done|].
  by apply model_step_consistent.
Qed.

Lemma model_loop_evaluated cfg st (n : nat) :
  Forall (evaluated objective) (observations st) →
  Forall (evaluated objective)
    (observations (Nat.iter n (model_step draw fit propose objective cfg) st)).
Proof.
  intros H. induction n as [|n IH]; simpl; [done|].
  destruct (model_step_observations cfg
              (Nat.iter n (model_step draw fit propose objective cfg) st))
    as [p ->].
  apply Forall_app. split; [done|]. by apply Forall_singleton.
Qed.

(** The log only grows: the log before the loop is a prefix of the log
    after it. *)
Lemma model_loop_prefix cfg st (n : nat) :
  observations st
    `prefix_of` observations
                  (Nat.iter n (model_step draw fit propose objective cfg) st).
Proof.
  induction n as [|n IH]; simpl; [done|].
  destruct (model_step_observations cfg
              (Nat.iter n (model_step draw fit propose objective cfg) st))
    as [p ->].
  by apply prefix_app_r.
Qed.

(** *** Init *)

Lemma validate_Ok cfg :
  validate cfg = Ok () ↔
  space cfg ≠ [] ∧ forallb well_formed (space cfg) = true
  ∧ (1 ≤ n_calls cfg)%Z ∧ (0 ≤ n_initial_points cfg ≤ n_calls cfg)%Z.
Proof.
  unfold validate.
  destruct (bool_decide_reflect (space cfg = [])) as [Hs|Hs]; simpl.
  { split; [done|]. by intros [? _]. }
  destruct (forallb well_formed (space cfg)); simpl.
  2:{ split; [done|]. by intros (_ & ? & _). }
  destruct (Z.ltb_spec (n_calls cfg) 1); simpl.
  { split; [done|]. lia. }
  destruct (Z.ltb_spec (n_initial_points cfg) 0); simpl.
  { split; [done|]. lia. }
  destruct (Z.ltb_spec (n_calls cfg) (n_initial_points cfg)); simpl.
  { split; [done|]. lia. }
  split; [|done]. intros _. repeat split; (done || lia).
Qed.

(** A fatal error is raised at Init or not at all, and only for a
    configuration that fails validation. *)
Lemma minimize_Err cfg entropy e :
  minimize seed_rng draw fit propose retries objective cfg entropy = Err e →
  validate cfg = Err e.
Proof.
  unfold minimize. destruct (validate cfg) as [[]|e'] eqn:Hv; simpl; [|by intros [= ->]].
  set (st := Nat.iter _ _ _).
  assert (observations st ≠ []) as Hne.
  { apply validate_Ok in Hv as (_ & _ & Hn & Hi).
    intros Hnil. apply (f_equal length) in Hnil. subst st.
    rewrite model_loop_length, warm_up_length in Hnil. simpl in Hnil. lia. }
  assert (consistent st) as Hc
    by apply model_loop_consistent, warm_up_consistent.
  destruct (foldl_track_minimum _ Hne) as ([p v] & Hb & _).
  unfold consistent in Hc. rewrite Hc, Hb. done.
Qed.

(** *** Terminal

    Every configuration that passes Init runs to completion; the result
    holds a log of exactly [n_calls] observations and the best of
    them. *)
Lemma minimize_Ok cfg entropy :
  validate cfg = Ok () →
  ∃ res,
    minimize seed_rng draw fit propose retries objective cfg entropy = Ok res
    ∧ length (log res) = Z.to_nat (n_calls cfg)
    ∧ iterations res = Z.to_nat (n_calls cfg)
    ∧ seed res = random_state cfg
    ∧ (best_point res, best_value res) ∈ log res
    ∧ best_value res = minimum (value_of <$> log res)
    ∧ Forall (evaluated objective) (log res).
Proof.
  intros Hv. unfold minimize. rewrite Hv. simpl.
  set (st := Nat.iter _ _ _).
  assert (length (observations st) = Z.to_nat (n_calls cfg)) as Hlen.
  { apply validate_Ok in Hv as (_ & _ & Hn & Hi). subst st.
    rewrite model_loop_length, warm_up_length. lia. }
  assert (observations st ≠ []) as Hne.
  { apply validate_Ok in Hv as (_ & _ & Hn & Hi).
    intros Hnil. rewrite Hnil in Hlen. simpl in Hlen. lia. }
  assert (consistent st) as Hc
    by apply model_loop_consistent, warm_up_consistent.
  assert (Forall (evaluated objective) (observations st)) as Hobj
    by apply model_loop_evaluated, warm_up_evaluated.
  destruct (foldl_track_minimum _ Hne) as ([p v] & Hb & Hin & Hmin).
  unfold consistent in Hc. rewrite Hc, Hb.
  eexists. split; [done|]. simpl. repeat split; done.
Qed.

Lemma minimize_validated cfg entropy res :
  minimize seed_rng draw fit propose retries objective cfg entropy = Ok res →
  validate cfg = Ok ().
Proof.
  unfold minimize. by destruct (validate cfg) as [[]|e].
Qed.

End WithDriver.

End DriverFacts.

(** ** Runs of the driver, and the notebook's three *)

Module RunFacts.
Import Syntax Smbo SpaceFacts DriverFacts.

Lemma optimizer_calls_eq :
  Program.optimizer_calls
  = Program.minimize_site <$> ["gp_minimize"; "forest_minimize"; "dummy_minimize"].
Proof. reflexivity. Qed.

(** What each optimiser invocation asks of the driver: fifty evaluations,
    seed 0. *)
Lemma config_of_optimizer_call (ni : Z) (t : Q) (sp : list Dimension) (i : nat) c :
  Program.optimizer_calls !! i = Some c →
  ∃ k, Run.config_of ni t sp c
       = Some {| n_calls := 50; n_initial_points := ni; random_state := Some 0%Z;
                 kind := k; acquisition_trade_off := t; space := sp |}.
Proof.
  rewrite optimizer_calls_eq.
  destruct i as [|[|[|i]]]; simpl; intros [= <-]; eexists; reflexivity.
Qed.

Section WithRuns.
Context {Rng Model : Type}.
Variable seed_rng : Z -> Rng.
Variable draw : Dimension -> Rng -> value * Rng.
Variable fit : surrogate_kind -> list Observation -> Rng -> option Model * Rng.
Variable propose :
  list Dimension -> Model -> Q -> option Q -> Rng -> list value * Rng.
Variable retries : nat.
Variable objective : list value -> option Q.
Variable cross_val_score : gmap string value -> Z -> Z -> string -> list Q.

(** Each of the notebook's runs completes, for a data set with more
    than one feature and a warm-up design within the budget. *)
Lemma run_Ok (nf ni : Z) (t : Q) (i : nat) c (entropy : Z) :
  Program.optimizer_calls !! i = Some c →
  (1 < nf)%Z → (0 ≤ ni ≤ 50)%Z →
  ∃ cfg res,
    Run.config_of ni t (Run.dimensions nf) c = Some cfg
    ∧ n_calls cfg = 50%Z ∧ random_state cfg = Some 0%Z
    ∧ validate cfg = Ok ()
    ∧ Run.run seed_rng draw fit propose retries cross_val_score nf ni t c entropy
      = minimize seed_rng draw fit propose retries
                 (Notebook.objective_value cross_val_score) cfg entropy
    ∧ Run.run seed_rng draw fit propose retries cross_val_score nf ni t c entropy
      = Ok res.
Proof.
  intros Hc Hnf Hni.
  destruct (config_of_optimizer_call ni t (Run.dimensions nf) i c Hc) as [k Hk].
  set (cfg := {| n_calls := 50; n_initial_points := ni;
                 random_state := Some 0%Z; kind := k;
                 acquisition_trade_off := t; space := Run.dimensions nf |}) in *.
  assert (validate cfg = Ok ()) as Hv.
  { apply validate_Ok. simpl. repeat split; (done || lia). }
  destruct (minimize_Ok seed_rng draw fit propose retries
              (Notebook.objective_value cross_val_score) cfg entropy Hv)
    as (res & Hres & _).
  exists cfg, res. split; [exact Hk|]. split; [done|]. split; [done|].
  split; [done|].
  unfold Run.run. rewrite (make_notebook_space nf Hnf). simpl. rewrite Hk.
  by split.
Qed.

(** C3: for every completed run, the best value of the
    OptimizationResult is the minimum objective value of the full
    Observation log (a failed evaluation counting as the worst value), it
    is the value logged for the best point, and when no evaluation failed
    it is [np.min] of [func_vals], the sequence the notebook takes its
    running minima of. *)
Theorem best_value_is_minimum (cfg : Config) (entropy : Z) (res : OptimizationResult) :
  minimize seed_rng draw fit propose retries objective cfg entropy = Ok res →
  best_value res = minimum (value_of <$> log res)
  ∧ (best_point res, best_value res) ∈ log res
  ∧ ∀ fv, func_vals res = Some fv → best_value res = Notebook.np_min fv.
Proof.
  intros Hres. pose proof (minimize_validated _ _ _ _ _ _ _ _ _ Hres) as Hv.
  destruct (minimize_Ok seed_rng draw fit propose retries objective cfg entropy Hv)
    as (res' & Hres' & Hlen & _ & _ & Hin & Hmin & _).
  rewrite Hres in Hres'. injection Hres' as <-.
  split; [done|]. split; [done|].
  intros fv Hfv. unfold func_vals in Hfv. apply mapM_value_of in Hfv.
  rewrite Hmin, Hfv. apply minimum_np_min. intros ->.
  apply validate_Ok in Hv as (_ & _ & Hn & _).
  apply (f_equal length) in Hfv. rewrite !length_fmap, Hlen in Hfv.
  simpl in Hfv. lia.
Qed.

(** C4: for every configuration that passes validation the run
    completes and its Observation log has exactly [n_calls] entries; each
    of the notebook's three runs, with budget 50, logs exactly 50 values,
    and every slice [func_vals[:i+1]] for [i] in [range(50)] holds
    [i + 1] of them. *)
Theorem log_length_is_budget
    (cfg : Config) (entropy : Z) (nf ni : Z) (t : Q) (k : nat) (c : site) :
  validate cfg = Ok () →
  Program.optimizer_calls !! k = Some c → (1 < nf)%Z → (0 ≤ ni ≤ 50)%Z →
  (∃ res,
     minimize seed_rng draw fit propose retries objective cfg entropy = Ok res
     ∧ length (log res) = Z.to_nat (n_calls cfg))
  ∧ (∃ res,
       Run.run seed_rng draw fit propose retries cross_val_score nf ni t c entropy
       = Ok res
       ∧ length (value_of <$> log res) = 50%nat
       ∧ ∀ i, (i < Notebook.n_points)%nat →
           length (take (i + 1) (value_of <$> log res)) = (i + 1)%nat).
Proof.
  intros Hv Hc Hnf Hni. split.
  - destruct (minimize_Ok seed_rng draw fit propose retries objective cfg entropy Hv)
      as (res & Hres & Hlen & _).
    by exists res.
  - destruct (run_Ok nf ni t k c entropy Hc Hnf Hni)
      as (cfg' & res & _ & Hn & _ & Hv' & Hrun & _).
    destruct (minimize_Ok seed_rng draw fit propose retries
                (Notebook.objective_value cross_val_score) cfg' entropy Hv')
      as (res' & Hres' & Hlen & _).
    exists res'. split; [by rewrite Hrun|].
    rewrite Hn in Hlen. rewrite length_fmap. split; [done|].
    intros i Hi. rewrite length_take, length_fmap, Hlen.
    unfold Notebook.n_points in Hi. lia.
Qed.

(** The last plotted value of a run without failed evaluations is its
    best score, negated: [fun] and the end of the curve agree. *)
Lemma curve_ends_at_best (cfg : Config) (entropy : Z) res (fv curve : list Q) :
  minimize seed_rng draw fit propose retries objective cfg entropy = Ok res →
  n_calls cfg = 50%Z →
  func_vals res = Some fv →
  Notebook.best_curve fv = Some curve →
  Some <$> curve !! 49%nat = Some (Qopp <$> best_value res).
Proof.
  intros Hres Hn Hfv Hcurve.
  pose proof (minimize_validated _ _ _ _ _ _ _ _ _ Hres) as Hv.
  destruct (minimize_Ok seed_rng draw fit propose retries objective cfg entropy Hv)
    as (res' & Hres' & Hlen & _ & _ & _ & Hmin & _).
  rewrite Hres in Hres'. injection Hres' as <-.
  unfold func_vals in Hfv. apply mapM_value_of in Hfv.
  assert (length fv = 50%nat) as Hfvlen.
  { apply (f_equal length) in Hfv. rewrite !length_fmap in Hfv. lia. }
  assert (fv ≠ []) as Hne by (intros ->; discriminate).
  destruct (NotebookFacts.best_curve_defined fv Hne) as (curve' & Hc' & _ & Hat).
  rewrite Hcurve in Hc'. injection Hc' as <-.
  rewrite (Hat 49%nat) by (unfold Notebook.n_points; lia).
  rewrite take_ge by (simpl; lia).
  by rewrite Hmin, Hfv, minimum_np_min.
Qed.

End WithRuns.

(** *** Instances *)

Lemma best_value_is_minimum_witness :
  Demo.drive Demo.bowl (Demo.config (Some 1%Z)) 0 = Ok Demo.outcome
  ∧ (best_value Demo.outcome = minimum (value_of <$> log Demo.outcome)
     ∧ (best_point Demo.outcome, best_value Demo.outcome) ∈ log Demo.outcome
     ∧ ∀ fv, func_vals Demo.outcome = Some fv
         → best_value Demo.outcome = Notebook.np_min fv).
Proof.
  split; [vm_compute; reflexivity|].
  apply (best_value_is_minimum Demo.seed_rng Demo.draw Demo.fit Demo.propose
           Demo.retries Demo.bowl (Demo.config (Some 1%Z)) 0 Demo.outcome).
  vm_compute; reflexivity.
Defined.

Lemma log_length_is_budget_witness :
  validate (Demo.config (Some 1%Z)) = Ok ()
  ∧ Program.optimizer_calls !! 0%nat = Some (Program.minimize_site "gp_minimize")
  ∧ (1 < 13)%Z ∧ (0 ≤ 10 ≤ 50)%Z
  ∧ ((∃ res,
        Demo.drive Demo.bowl (Demo.config (Some 1%Z)) 0 = Ok res
        ∧ length (log res) = Z.to_nat (n_calls (Demo.config (Some 1%Z))))
     ∧ (∃ res,
          Demo.notebook_run (Program.minimize_site "gp_minimize") 0 = Ok res
          ∧ length (value_of <$> log res) = 50%nat
          ∧ ∀ i, (i < Notebook.n_points)%nat →
              length (take (i + 1) (value_of <$> log res)) = (i + 1)%nat)).
Proof.
  split; [reflexivity|]. split; [reflexivity|]. split; [lia|]. split; [lia|].
  apply (log_length_is_budget Demo.seed_rng Demo.draw Demo.fit Demo.propose
           Demo.retries Demo.bowl Demo.cross_val_score
           (Demo.config (Some 1%Z)) 0 13 10 (196 # 100) 0
           (Program.minimize_site "gp_minimize")); [reflexivity|reflexivity|lia|lia].
Defined.

End RunFacts.

(** ** More on [objective]: the shared estimator *)

Module ObjectiveFacts.
Import Notebook NotebookFacts.

#[local] Set Warnings "-clear-no-such-hyp".

(** *** The estimator under [set_params] *)

Lemma set_params_overwrite (r : gmap string value) (p q : list value) :
  length q = 5%nat →
  set_params (zip Program.objective_params q)
             (set_params (zip Program.objective_params p) r)
  = set_params (zip Program.objective_params q) r.
Proof.
  intros Hq. apply map_eq. intros name.
  destruct (decide (name ∈ Program.objective_params)) as [Hin|Hout].
  - apply list_elem_of_lookup in Hin as [i Hi].
    by rewrite !(set_params_lookup _ q i name).
  - by rewrite !set_params_other.
Qed.

Section WithScorer.
Variable cross_val_score : gmap string value -> Z -> Z -> string -> list Q.

Lemma reg_after_snoc (r : gmap string value) (points : list (list value)) p :
  length p = 5%nat →
  reg_after cross_val_score r (points ++ [p])
  = set_params (zip Program.objective_params p) r.
Proof.
  intros Hp. revert r. induction points as [|a points IH]; intros r.
  - cbn [app reg_after]. by rewrite objective_eq.
  - cbn [app reg_after]. destruct (decide (length a = 5%nat)) as [Ha|Ha].
    + rewrite objective_eq by done. rewrite IH. by apply set_params_overwrite.
    + rewrite objective_wrong_length by done. apply IH.
Qed.

Lemma reg_after_other (r : gmap string value) (points : list (list value)) name :
  name ∉ Program.objective_params →
  reg_after cross_val_score r points !! name = r !! name.
Proof.
  intros Hn. revert r. induction points as [|a points IH]; intros r; [done|].
  cbn [reg_after]. destruct (decide (length a = 5%nat)) as [Ha|Ha].
  - rewrite objective_eq by done. rewrite IH. by apply set_params_other.
  - rewrite objective_wrong_length by done. apply IH.
Qed.

(** X2: [objective] mutates the one global estimator, yet the numbers
    it returns do not depend on it: after any earlier calls, the values
    returned over a sequence of calls are those of independent calls on
    the estimator as first built. What a call returns depends on its
    point alone, not on the points evaluated before it. *)
Theorem objective_calls_independent (before points : list (list value)) :
  call_sequence cross_val_score (reg_after cross_val_score reg before) points
  = objective_value cross_val_score <$> points.
Proof.
  apply call_sequence_values. intros name Hname. by apply reg_after_other.
Qed.

(** X3: after any sequence of calls that ends with a point of five
    values, the global estimator holds the parameters of that last point,
    whatever was evaluated before: the estimator is left configured with
    the last point tried, not with the best one. *)
Theorem estimator_holds_last_point
    (r : gmap string value) (points : list (list value)) (p : list value) :
  length p = 5%nat →
  reg_after cross_val_score r (points ++ [p])
  = set_params (zip Program.objective_params p) r
  ∧ ∀ i name, Program.objective_params !! i = Some name →
      reg_after cross_val_score r (points ++ [p]) !! name = p !! i.
Proof.
  intros Hp. rewrite reg_after_snoc by done. split; [done|].
  intros i name Hi. by apply set_params_lookup.
Qed.

(** X4: no sequence of calls changes a parameter of the estimator
    other than the five tuned ones: whatever the estimator holds under
    any other name it still holds afterwards, so [reg] keeps
    [n_estimators=50] and [random_state=0]. *)
Theorem objective_keeps_other_parameters
    (r : gmap string value) (points : list (list value)) (name : string) :
  name ∉ Program.objective_params →
  reg_after cross_val_score r points !! name = r !! name
  ∧ reg_after cross_val_score reg points !! "n_estimators" = Some (VInt 50)
  ∧ reg_after cross_val_score reg points !! "random_state" = Some (VInt 0).
Proof.
  intros Hname. split; [by apply reg_after_other|].
  split; (rewrite reg_after_other; [done|]); rewrite objective_params_eq;
    set_solver.
Qed.

End WithScorer.

(** *** Instances *)

Lemma estimator_holds_last_point_witness :
  length Demo.point_b = 5%nat
  ∧ (reg_after Demo.cross_val_score reg ([Demo.point_a; []] ++ [Demo.point_b])
     = set_params (zip Program.objective_params Demo.point_b) reg
     ∧ ∀ i name, Program.objective_params !! i = Some name →
         reg_after Demo.cross_val_score reg ([Demo.point_a; []] ++ [Demo.point_b])
           !! name = Demo.point_b !! i).
Proof.
  split; [reflexivity|].
  apply (estimator_holds_last_point Demo.cross_val_score reg
           [Demo.point_a; []] Demo.point_b).
  reflexivity.
Defined.

Lemma objective_keeps_other_parameters_witness :
  "warm_start" ∉ Program.objective_params
  ∧ (reg_after Demo.cross_val_score (<["warm_start" := VInt 0]> reg)
       [Demo.point_a; []; Demo.point_b] !! "warm_start"
     = <["warm_start" := VInt 0]> reg !! "warm_start"
     ∧ reg_after Demo.cross_val_score reg [Demo.point_a; []; Demo.point_b]
         !! "n_estimators" = Some (VInt 50)
     ∧ reg_after Demo.cross_val_score reg [Demo.point_a; []; Demo.point_b]
         !! "random_state" = Some (VInt 0)).
Proof.
  split; [compute_done|].
  apply (objective_keeps_other_parameters Demo.cross_val_score
           (<["warm_start" := VInt 0]> reg) [Demo.point_a; []; Demo.point_b]
           "warm_start").
  compute_done.
Defined.

End ObjectiveFacts.

(** ** More on the convergence curves *)

Module CurveFacts.
Import Notebook NotebookFacts.

(** *** Minima *)

Lemma Qmin_cases (a b : Q) : Qmin a b = a ∨ Qmin a b = b.
Proof.
  unfold Qmin, GenericMinMax.gmin. destruct (a ?= b)%Q; auto.
Qed.

(** [np.min] returns an element of the array that no element is below. *)
Lemma foldl_Qmin_spec (t : list Q) (x : Q) :
  foldl Qmin x t ∈ x :: t ∧ Forall (Qle (foldl Qmin x t)) (x :: t).
Proof.
  revert x. induction t as [|y t IH]; intros x; cbn [foldl].
  - split; [apply list_elem_of_here|]. apply Forall_singleton, Qle_refl.
  - destruct (IH (Qmin x y)) as [Hin Hle].
    apply Forall_cons in Hle as [Hm Hle]. split.
    + apply elem_of_cons in Hin as [->|Hin].
      * destruct (Qmin_cases x y) as [->| ->]; [left|right; left]; done.
      * by do 2 right.
    + repeat (apply Forall_cons; split); [..|done].
      * eapply Qle_trans; [exact Hm|apply Q.le_min_l].
      * eapply Qle_trans; [exact Hm|apply Q.le_min_r].
Qed.

Lemma np_min_spec (l : list Q) (m : Q) :
  np_min l = Some m → m ∈ l ∧ Forall (Qle m) l.
Proof.
  destruct l as [|x t]; [done|]. intros [= <-]. apply foldl_Qmin_spec.
Qed.

(** The minimum does not depend on the order of the elements. *)
Lemma np_min_perm (l k : list Q) (a b : Q) :
  l ≡ₚ k → np_min l = Some a → np_min k = Some b → (a == b)%Q.
Proof.
  intros Hp Ha Hb.
  destruct (np_min_spec _ _ Ha) as [Hain Hale].
  destruct (np_min_spec _ _ Hb) as [Hbin Hble].
  apply Qle_antisym.
  - rewrite Forall_forall in Hale. apply Hale. by rewrite Hp.
  - rewrite Forall_forall in Hble. apply Hble. by rewrite <- Hp.
Qed.

Lemma foldl_Qmin_mono (t t' : list Q) (x x' : Q) :
  (x <= x')%Q → Forall2 Qle t t' → (foldl Qmin x t <= foldl Qmin x' t')%Q.
Proof.
  intros Hx H. revert x x' Hx. induction H as [|y y' t t' Hy _ IH]; intros x x' Hx.
  - done.
  - cbn [foldl]. apply IH. by apply Q.min_le_compat.
Qed.

(** *** Entries of a curve *)

Lemma best_curve_nil : best_curve [] = None.
Proof. reflexivity. Qed.

Lemma best_curve_Some_nonempty (fv c : list Q) : best_curve fv = Some c → fv ≠ [].
Proof. intros H ->. by rewrite best_curve_nil in H. Qed.

(** Entry [i] of a curve is the negated minimum of the first [i + 1]
    values. *)
Lemma curve_lookup (fv c : list Q) (i : nat) (a : Q) :
  best_curve fv = Some c → c !! i = Some a →
  (i < n_points)%nat ∧ ∃ m, np_min (take (i + 1) fv) = Some m ∧ a = (- m)%Q.
Proof.
  intros Hc Ha. pose proof (best_curve_Some_nonempty _ _ Hc) as Hne.
  destruct (best_curve_defined fv Hne) as (c' & Hc' & Hlen & Hat).
  rewrite Hc in Hc'. injection Hc' as <-.
  assert (i < n_points)%nat as Hi by (rewrite <- Hlen; by eapply lookup_lt_Some).
  split; [done|]. specialize (Hat i Hi). rewrite Ha in Hat. simpl in Hat.
  destruct (np_min (take (i + 1) fv)) as [m|]; [|done]. simpl in Hat.
  exists m. split; [done|]. congruence.
Qed.

Lemma best_curve_length (fv c : list Q) :
  best_curve fv = Some c → length c = n_points.
Proof.
  intros Hc. pose proof (best_curve_Some_nonempty _ _ Hc) as Hne.
  destruct (best_curve_defined fv Hne) as (c' & Hc' & Hlen & _). congruence.
Qed.

Lemma mapM_ext_Forall {A B} (f g : A → option B) (l : list A) :
  Forall (λ x, f x = g x) l → mapM f l = mapM g l.
Proof.
  induction 1 as [|x l Hx _ IH]; [done|]. cbn [mapM]. by rewrite Hx, IH.
Qed.

(** X6: a curve is computed exactly when [func_vals] is not empty
    ([np.min] raises on the empty slice), and then it has [n_points = 50]
    entries however many values [func_vals] holds. *)
Theorem best_curve_defined_iff (fv : list Q) :
  (best_curve fv = None ↔ fv = [])
  ∧ ∀ c, best_curve fv = Some c → length c = n_points.
Proof.
  split; [split|].
  - intros Hnone. destruct fv as [|x t]; [done|].
    destruct (best_curve_defined (x :: t)) as (c & Hc & _); [done|]. congruence.
  - intros ->. apply best_curve_nil.
  - apply best_curve_length.
Qed.

(** The last entry of the curve of at most [n_points] values. *)
Lemma curve_end (fv : list Q) :
  fv ≠ [] → (length fv ≤ n_points)%nat →
  ∃ c m, best_curve fv = Some c ∧ np_min fv = Some m
    ∧ c !! 49%nat = Some (- m)%Q.
Proof.
  intros Hne Hlen. unfold n_points in Hlen.
  destruct (best_curve_defined fv Hne) as (c & Hc & _ & Hat).
  specialize (Hat 49%nat ltac:(unfold n_points; lia)).
  rewrite take_ge in Hat by lia.
  destruct fv as [|x t]; [done|]. cbn [np_min] in *.
  exists c, (foldl Qmin x t). repeat split; [done|].
  destruct (c !! 49%nat) as [a|]; simpl in Hat; by simplify_eq.
Qed.

(** X7: slices past the end are clamped: from the last value of
    [func_vals] on, every entry of the curve is the negated minimum of all
    of [func_vals], so a result with fewer than 50 values plots a flat
    tail and the curve ends at the overall best. *)
Theorem best_curve_flat_tail (fv : list Q) (i : nat) :
  fv ≠ [] → (length fv - 1 ≤ i)%nat → (i < n_points)%nat →
  ∃ c, best_curve fv = Some c ∧ c !! i = Qopp <$> np_min fv.
Proof.
  intros Hne Hlen Hi.
  destruct (best_curve_defined fv Hne) as (c & Hc & _ & Hat).
  exists c. split; [done|]. specialize (Hat i Hi).
  rewrite take_ge in Hat by lia.
  destruct (np_min_take_is_Some fv i Hne) as [m Hm].
  destruct (c !! i) as [a|]; simpl in Hat; by simplify_eq.
Qed.

(** X8: the curve never looks past the first [n_points = 50] values:
    values a result holds beyond them do not change the plot. *)
Theorem best_curve_ignores_later_values (fv : list Q) :
  best_curve fv = best_curve (take n_points fv).
Proof.
  unfold best_curve. apply mapM_ext_Forall, Forall_forall.
  intros i Hi. apply elem_of_seq in Hi.
  rewrite take_take. by replace (min (i + 1) n_points) with (i + 1)%nat by lia.
Qed.

(** X9: the curve follows the running-best recurrence: each entry is the
    larger of the previous entry and the negated new observation, and it
    rises strictly exactly when the new observation is strictly below
    every earlier one. *)
Theorem best_curve_step (fv c : list Q) (i : nat) (a b x : Q) :
  best_curve fv = Some c →
  c !! i = Some a → c !! S i = Some b → fv !! S i = Some x →
  (b == Qmax a (- x))%Q ∧ ((a < b)%Q ↔ (x < - a)%Q).
Proof.
  intros Hc Ha Hb Hx.
  destruct (curve_lookup _ _ _ _ Hc Ha) as (_ & m & Hm & ->).
  destruct (curve_lookup _ _ _ _ Hc Hb) as (_ & m' & Hm' & ->).
  destruct fv as [|x0 t]; [done|]. rewrite !Nat.add_1_r in *.
  cbn [take np_min] in Hm, Hm'. cbn [lookup list_lookup] in Hx.
  rewrite (take_S_r _ _ _ Hx), foldl_app in Hm'. cbn [foldl] in Hm'.
  injection Hm as <-. injection Hm' as <-.
  set (m := foldl Qmin x0 (take i t)).
  split.
  - destruct (Q.min_spec m x) as [[H1 E1]|[H1 E1]],
             (Q.max_spec (- m) (- x)) as [[H2 E2]|[H2 E2]];
      rewrite E1, E2; lra.
  - destruct (Q.min_spec m x) as [[H1 E1]|[H1 E1]]; rewrite E1; split; lra.
Qed.

(** Entry [i] of a curve, in terms of the first [i + 1] values: the
    negation of one of them that none of them is below. *)
Lemma curve_lookup_min (fv c : list Q) (i : nat) (a : Q) :
  best_curve fv = Some c → c !! i = Some a →
  ∃ m, a = (- m)%Q ∧ m ∈ take (i + 1) fv ∧ Forall (Qle m) (take (i + 1) fv).
Proof.
  intros Hc Ha. destruct (curve_lookup _ _ _ _ Hc Ha) as (_ & m & Hm & ->).
  exists m. split; [done|]. by apply np_min_spec.
Qed.

(** X10: every plotted value is the negation of a value actually observed
    among the first [i + 1], and no value observed among them is better
    (smaller) than it shows. *)
Theorem best_curve_value_observed (fv c : list Q) (i : nat) (a : Q) :
  best_curve fv = Some c → c !! i = Some a →
  (∃ k x, (k ≤ i)%nat ∧ fv !! k = Some x ∧ a = (- x)%Q)
  ∧ ∀ j y, (j ≤ i)%nat → fv !! j = Some y → (- y <= a)%Q.
Proof.
  intros Hc Ha.
  destruct (curve_lookup_min _ _ _ _ Hc Ha) as (m & -> & Hin & Hle). split.
  - apply list_elem_of_lookup in Hin as [k Hk].
    apply lookup_take_Some in Hk as [Hk Hlt].
    exists k, m. repeat split; [lia|done].
  - intros j y Hj Hy. apply Qopp_le_compat.
    rewrite Forall_forall in Hle. apply Hle.
    apply list_elem_of_lookup. exists j. rewrite lookup_take_lt by lia. done.
Qed.

(** X11: a result whose every observation is at least as good (no
    larger) plots a curve that is nowhere lower. *)
Theorem best_curve_mono (fv fv' c c' : list Q) :
  Forall2 Qle fv fv' →
  best_curve fv = Some c → best_curve fv' = Some c' →
  Forall2 (λ a a', (a' <= a)%Q) c c'.
Proof.
  intros Hle Hc Hc'.
  pose proof (best_curve_length fv c Hc) as Hlen.
  pose proof (best_curve_length fv' c' Hc') as Hlen'.
  apply Forall2_same_length_lookup. split; [congruence|].
  intros i a a' Ha Ha'.
  destruct (curve_lookup _ _ _ _ Hc Ha) as (_ & m & Hm & ->).
  destruct (curve_lookup _ _ _ _ Hc' Ha') as (_ & m' & Hm' & ->).
  apply Qopp_le_compat.
  pose proof (Forall2_take _ _ _ (i + 1) Hle) as Ht.
  destruct Ht as [|y y' t t' Hy Ht]; [done|].
  injection Hm as <-. injection Hm' as <-. by apply foldl_Qmin_mono.
Qed.

(** X12: the value the curve ends at does not depend on the order in
    which the (at most 50) values were observed, although the curve
    itself does. *)
Theorem best_curve_end_order_independent (fv fv' : list Q) :
  fv ≡ₚ fv' → fv ≠ [] → (length fv ≤ n_points)%nat →
  ∃ (c c' : list Q) (a a' : Q),
    best_curve fv = Some c ∧ best_curve fv' = Some c'
    ∧ c !! 49%nat = Some a ∧ c' !! 49%nat = Some a' ∧ (a == a')%Q.
Proof.
  intros Hp Hne Hlen.
  assert (fv' ≠ []) as Hne'.
  { intros ->. by apply Permutation_nil_r in Hp. }
  assert (length fv' ≤ n_points)%nat as Hlen' by by rewrite <- Hp.
  destruct (curve_end fv Hne Hlen) as (c & m & Hc & Hm & Hat).
  destruct (curve_end fv' Hne' Hlen') as (c' & m' & Hc' & Hm' & Hat').
  exists c, c', (- m)%Q, (- m')%Q. repeat split; try done.
  apply Qopp_comp. by eapply np_min_perm.
Qed.

(** What [objective] returns on a point, when it returns. *)
Lemma objective_value_Some cvs (p : list value) (v : Q) :
  objective_value cvs p = Some v →
  length p = 5%nat
  ∧ v = (- mean_score cvs (set_params (zip Program.objective_params p) reg))%Q.
Proof.
  unfold objective_value. intros H.
  destruct (decide (length p = 5%nat)) as [Hp|Hp].
  - rewrite objective_eq in H by done. simpl in H. by injection H as <-.
  - by rewrite objective_wrong_length in H.
Qed.

(** X15: when [func_vals] holds what [objective] returned on the
    evaluated points, entry [i] of the curve is the best mean
    cross-validation score among the first [i + 1] points: it is the mean
    score of one of them, and none of them has a higher one. *)
Theorem curve_plots_best_mean_score
    (cvs : gmap string value → Z → Z → string → list Q)
    (points : list (list value)) (fv c : list Q) (i : nat) (a : Q) :
  mapM (objective_value cvs) points = Some fv →
  best_curve fv = Some c → c !! i = Some a →
  (∃ k p, (k ≤ i)%nat ∧ points !! k = Some p
      ∧ (a == mean_score cvs (set_params (zip Program.objective_params p) reg))%Q)
  ∧ ∀ j p, (j ≤ i)%nat → points !! j = Some p →
      (mean_score cvs (set_params (zip Program.objective_params p) reg) <= a)%Q.
Proof.
  intros Hfv Hc Ha. apply mapM_Some in Hfv.
  destruct (curve_lookup_min _ _ _ _ Hc Ha) as (m & -> & Hin & Hle). split.
  - apply list_elem_of_lookup in Hin as [k Hk].
    apply lookup_take_Some in Hk as [Hk Hlt].
    destruct (Forall2_lookup_r _ _ _ _ _ Hfv Hk) as (p & Hp & Hv).
    apply objective_value_Some in Hv as [_ ->].
    exists k, p. repeat split; [lia|done|]. apply Qopp_opp.
  - intros j p Hj Hp.
    destruct (Forall2_lookup_l _ _ _ _ _ Hfv Hp) as (y & Hy & Hv).
    rewrite Forall_forall in Hle.
    assert (m <= y)%Q as Hmy.
    { apply Hle, list_elem_of_lookup. exists j. by rewrite lookup_take_lt by lia. }
    apply objective_value_Some in Hv as [_ Hv]. rewrite Hv in Hmy. lra.
Qed.

(** *** Instances *)

Lemma curve_plots_best_mean_score_witness :
  mapM (objective_value Demo.cross_val_score) [Demo.point_a; Demo.point_b]
  = Some Demo.values_ab
  ∧ best_curve Demo.values_ab = Some Demo.curve_ab
  ∧ Demo.curve_ab !! 1%nat = Some Demo.best_ab
  ∧ ((∃ k p, (k ≤ 1)%nat ∧ [Demo.point_a; Demo.point_b] !! k = Some p
        ∧ (Demo.best_ab
           == mean_score Demo.cross_val_score
                (set_params (zip Program.objective_params p) reg))%Q)
     ∧ ∀ j p, (j ≤ 1)%nat → [Demo.point_a; Demo.point_b] !! j = Some p →
         (mean_score Demo.cross_val_score
            (set_params (zip Program.objective_params p) reg) <= Demo.best_ab)%Q).
Proof.
  split; [reflexivity|]. split; [reflexivity|]. split; [reflexivity|].
  apply (curve_plots_best_mean_score Demo.cross_val_score
           [Demo.point_a; Demo.point_b] Demo.values_ab Demo.curve_ab 1 Demo.best_ab);
    reflexivity.
Defined.

Lemma best_curve_flat_tail_witness :
  Demo.values ≠ [] ∧ (length Demo.values - 1 ≤ 10)%nat ∧ (10 < n_points)%nat
  ∧ ∃ c, best_curve Demo.values = Some c
      ∧ c !! 10%nat = Qopp <$> np_min Demo.values.
Proof.
  split; [discriminate|]. split; [simpl; lia|]. split; [unfold n_points; lia|].
  apply (best_curve_flat_tail Demo.values 10);
    [discriminate | simpl; lia | unfold n_points; lia].
Defined.

Lemma best_curve_step_witness :
  best_curve Demo.values = Some Demo.curve
  ∧ Demo.curve !! 0%nat = Some (- (3))%Q ∧ Demo.curve !! 1%nat = Some (- (2))%Q
  ∧ Demo.values !! 1%nat = Some 2%Q
  ∧ ((- (2) == Qmax (- (3)) (- 2))%Q ∧ ((- (3) < - (2))%Q ↔ (2 < - - (3))%Q)).
Proof.
  split; [reflexivity|]. split; [reflexivity|]. split; [reflexivity|].
  split; [reflexivity|].
  apply (best_curve_step Demo.values Demo.curve 0 (- (3))%Q (- (2))%Q 2%Q);
    reflexivity.
Defined.

Lemma best_curve_value_observed_witness :
  best_curve Demo.values = Some Demo.curve
  ∧ Demo.curve !! 2%nat = Some (- (2))%Q
  ∧ ((∃ k x, (k ≤ 2)%nat ∧ Demo.values !! k = Some x ∧ (- (2))%Q = (- x)%Q)
     ∧ ∀ j y, (j ≤ 2)%nat → Demo.values !! j = Some y → (- y <= - (2))%Q).
Proof.
  split; [reflexivity|]. split; [reflexivity|].
  apply (best_curve_value_observed Demo.values Demo.curve 2 (- (2))%Q); reflexivity.
Defined.

Lemma best_curve_mono_witness :
  Forall2 Qle Demo.values_better Demo.values
  ∧ best_curve Demo.values_better = Some Demo.curve_better
  ∧ best_curve Demo.values = Some Demo.curve
  ∧ Forall2 (λ a a', (a' <= a)%Q) Demo.curve_better Demo.curve.
Proof.
  assert (Forall2 Qle Demo.values_better Demo.values) as Hle.
  { unfold Demo.values_better, Demo.values.
    repeat (apply Forall2_cons; split; [discriminate|]). apply Forall2_nil_2. }
  split; [exact Hle|]. split; [reflexivity|]. split; [reflexivity|].
  apply (best_curve_mono Demo.values_better Demo.values
           Demo.curve_better Demo.curve); [exact Hle | reflexivity | reflexivity].
Defined.

Lemma best_curve_end_order_independent_witness :
  Demo.values ≡ₚ Demo.values_shuffled ∧ Demo.values ≠ []
  ∧ (length Demo.values ≤ n_points)%nat
  ∧ ∃ (c c' : list Q) (a a' : Q),
      best_curve Demo.values = Some c ∧ best_curve Demo.values_shuffled = Some c'
      ∧ c !! 49%nat = Some a ∧ c' !! 49%nat = Some a' ∧ (a == a')%Q.
Proof.
  assert (Demo.values ≡ₚ Demo.values_shuffled) as Hp.
  { unfold Demo.values, Demo.values_shuffled.
    change [3; 2; 5 # 2; 1]%Q with ([3; 2; 5 # 2] ++ [1])%Q.
    rewrite <- Permutation_cons_append. apply perm_skip.
    change [3; 2; 5 # 2]%Q with ([3; 2] ++ [5 # 2])%Q.
    by rewrite <- Permutation_cons_append. }
  split; [exact Hp|]. split; [discriminate|].
  split; [unfold n_points; simpl; lia|].
  apply (best_curve_end_order_independent Demo.values Demo.values_shuffled);
    [exact Hp | discriminate | unfold n_points; simpl; lia].
Defined.

End CurveFacts.

(** ** Names and reports *)

Module ScopeFacts.
Import Syntax Scope.

(** A program without unbound reads reads only names bound before:
    every name a statement needs was bound at the start or by an earlier
    statement. *)
Lemma unbound_sound (prog : list stmt) (bound : list string) :
  unbound bound prog = [] →
  ∀ i s x, prog !! i = Some s → x ∈ stmt_reads s →
    x ∈ bound ∨ x ∈ flat_map stmt_binds (take i prog).
Proof.
  revert bound. induction prog as [|s0 prog IH]; intros bound Hu i s x Hs Hx.
  - by rewrite lookup_nil in Hs.
  - cbn [unbound] in Hu. apply app_nil in Hu as [Hhead Hrest].
    destruct i as [|i]; cbn [lookup list_lookup] in Hs.
    + injection Hs as ->. left.
      destruct (decide (x ∈ bound)) as [|Hout]; [done|].
      assert (x ∈ filter (λ x, x ∉ bound) (stmt_reads s)) as Hin
        by by apply list_elem_of_filter.
      rewrite Hhead in Hin. by apply elem_of_nil in Hin.
    + destruct (IH _ Hrest i s x Hs Hx) as [Hb|Hb].
      * apply elem_of_app in Hb as [Hb|Hb]; [|by left].
        right. cbn [take flat_map]. apply elem_of_app. by left.
      * right. cbn [take flat_map]. apply elem_of_app. by right.
Qed.

(** Conversely, a read of a name bound nowhere before shows up. *)
Lemma unbound_complete (prog : list stmt) (bound : list string) i s x :
  prog !! i = Some s → x ∈ stmt_reads s →
  x ∉ bound → x ∉ flat_map stmt_binds (take i prog) →
  x ∈ unbound bound prog.
Proof.
  revert bound i. induction prog as [|s0 prog IH]; intros bound i Hs Hx Hb Hp.
  - by rewrite lookup_nil in Hs.
  - cbn [unbound]. apply elem_of_app.
    destruct i as [|i]; cbn [lookup list_lookup] in Hs.
    + injection Hs as ->. left. by apply list_elem_of_filter.
    + right. cbn [take flat_map] in Hp. apply (IH _ i); [done..| |].
      * intros Hin. apply elem_of_app in Hin as [Hin|Hin]; [|done].
        apply Hp, elem_of_app. by left.
      * intros Hin. apply Hp, elem_of_app. by right.
Qed.

(** X13: run top to bottom, the notebook never reads a name that is not
    bound: every name a statement needs is a builtin ([print], [range]) or
    was imported, assigned or defined by an earlier statement, the global
    names the body of [objective] reads exist before the [def], and inside
    [objective] no local name is read before it is assigned. *)
Theorem names_bound_before_use (i : nat) (s : stmt) (x : string) :
  Program.notebook !! i = Some s → x ∈ stmt_reads s →
  (x ∈ builtins ∨ x ∈ flat_map stmt_binds (take i Program.notebook))
  ∧ flat_map local_unbound Program.notebook = [].
Proof.
  intros Hs Hx. split; [|reflexivity].
  by apply (unbound_sound Program.notebook builtins eq_refl i s x).
Qed.

Lemma names_bound_before_use_witness :
  Program.notebook !! 13%nat
  = Some (Assign [Name "res_gp"]
            (Call (Name "gp_minimize") [Name "objective"; Name "space"]
               [("maxiter", Program.int 50); ("random_state", Program.int 0)]))
  ∧ "objective" ∈ stmt_reads
      (Assign [Name "res_gp"]
         (Call (Name "gp_minimize") [Name "objective"; Name "space"]
            [("maxiter", Program.int 50); ("random_state", Program.int 0)]))
  ∧ (("objective" ∈ builtins
      ∨ "objective" ∈ flat_map stmt_binds (take 13 Program.notebook))
     ∧ flat_map local_unbound Program.notebook = []).
Proof.
  split; [reflexivity|]. split; [compute_done|].
  apply (names_bound_before_use 13
           (Assign [Name "res_gp"]
              (Call (Name "gp_minimize") [Name "objective"; Name "space"]
                 [("maxiter", Program.int 50); ("random_state", Program.int 0)]))
           "objective"); [reflexivity | compute_done].
Defined.

(** Plotting before optimising would read [res_gp] unbound. *)
Lemma plot_first_is_unbound :
  "res_gp" ∈ unbound builtins (Program.cell_setup ++ Program.cell_plot).
Proof. compute_done. Qed.

(** X14: each optimiser's result is scored and reported right after it
    is computed, under its own name, in the order gp, forest, dummy; and
    every report prints the coordinates [x[0]] to [x[4]] of the best point
    under the names of the dimensions of [space], in the order of [space],
    with an integer conversion ([%d]) for the dimensions with integer
    bounds and a float conversion ([%f]) for the one with float bounds. *)
Theorem reports_follow_space (nf : Z) :
  Report.events
  = flat_map
      (λ mr, Report.expected Notebook.space_comments (Notebook.space nf) mr.1 mr.2)
      [("gp_minimize", "res_gp"); ("forest_minimize", "res_forest");
       ("dummy_minimize", "res_dummy")].
Proof. reflexivity. Qed.

End ScopeFacts.
